(** * Makita Spare Parts Finder: a shallow embedding of [app.py]

    The development follows the source file top to bottom: text helpers and
    the regular-expression fragment the search uses, binary64 numbers and
    the numeric coercions, the column resolver, the row normaliser, the
    search and add-to-list policies of the first tab, and the request list
    of the second tab.

    Python [str] values are lists of characters restricted to ASCII (case
    folding is the ASCII one), Python [int] is [Z], Python [float] is the
    binary64 instance of [SpecFloat], a [dict] is a [gmap], and code under
    [try]/[except] returns a [result]. *)

From Stdlib Require Import ZArith List Ascii String Bool Lia DecimalString.
From Stdlib Require Import Floats.SpecFloat.
From stdpp Require Import base option list gmap strings.

Local Open Scope Z_scope.
Local Open Scope list_scope.

Abbreviation str := (list ascii).

(** String literals of the source, as character lists. *)
Definition lit (s : string) : list ascii := list_ascii_of_string s.

(* ------------------------------------------------------------------ *)
(** ** Exceptions and results *)

Inductive exn :=
| ValueError (msg : list ascii)
| KeyError (key : list ascii)
| IndexError
| OverflowError
| StreamlitAPIException.

Inductive result (A : Type) :=
| Ok (a : A)
| Raise (e : exn).
Arguments Ok {A} a.
Arguments Raise {A} e.

Definition bind {A B} (r : result A) (k : A -> result B) : result B :=
  match r with
  | Ok a => k a
  | Raise e => Raise e
  end.

Notation "'do' x <- r ; k" := (bind r (fun x => k))
  (at level 10, x name, r at level 100, k at level 200).

(** [try: body  except Exception: return d].  Every constructor of [exn]
    is a subclass of [Exception]. *)
Definition try_except {A} (body : result A) (d : A) : result A :=
  match body with
  | Ok a => Ok a
  | Raise _ => Ok d
  end.

(** The results of a list of computations, in order; the first exception
    wins. *)
Fixpoint sequence {A} (l : list (result A)) : result (list A) :=
  match l with
  | [] => Ok []
  | r :: l' => do a <- r; do t <- sequence l'; Ok (a :: t)
  end.

(* ------------------------------------------------------------------ *)
(** ** Text helpers ([str.lower], [str.strip], [in], [str.split]) *)

Module Text.

Definition code (c : ascii) : N := N_of_ascii c.

Definition is_upper (c : ascii) : bool :=
  ((65 <=? code c) && (code c <=? 90))%N.

Definition is_lower (c : ascii) : bool :=
  ((97 <=? code c) && (code c <=? 122))%N.

Definition is_digit (c : ascii) : bool :=
  ((48 <=? code c) && (code c <=? 57))%N.

(** [str.isspace] on ASCII: tab, LF, VT, FF, CR, FS, GS, RS, US, space. *)
Definition is_space (c : ascii) : bool :=
  (((9 <=? code c) && (code c <=? 13))
   || ((28 <=? code c) && (code c <=? 32)))%N.

Definition lower_char (c : ascii) : ascii :=
  if is_upper c then ascii_of_N (code c + 32) else c.

Definition lower (s : str) : str := map lower_char s.

Fixpoint lstrip (s : str) : str :=
  match s with
  | c :: s' => if is_space c then lstrip s' else s
  | [] => []
  end.

Definition rstrip (s : str) : str := rev (lstrip (rev s)).

Definition strip (s : str) : str := rstrip (lstrip s).

Definition char_eqb (a b : ascii) : bool := Ascii.eqb a b.

Fixpoint str_eqb (a b : str) : bool :=
  match a, b with
  | [], [] => true
  | x :: a', y :: b' => char_eqb x y && str_eqb a' b'
  | _, _ => false
  end.

(** [s.startswith(p)] *)
Fixpoint startswith (p s : str) : bool :=
  match p, s with
  | [], _ => true
  | x :: p', y :: s' => char_eqb x y && startswith p' s'
  | _ :: _, [] => false
  end.

(** [p in s] *)
Fixpoint str_in (p s : str) : bool :=
  startswith p s ||
  match s with
  | [] => false
  | _ :: s' => str_in p s'
  end.

(** The position of the first occurrence of [sep], as the pair of the
    text before it and the text after it. *)
Fixpoint partition (sep s : str) : option (str * str) :=
  if startswith sep s then Some ([], drop (length sep) s)
  else match s with
       | [] => None
       | c :: s' =>
           match partition sep s' with
           | Some (a, b) => Some (c :: a, b)
           | None => None
           end
       end.

(** [s.split(sep, 1)]: at most one split, at the first occurrence. *)
Definition split1 (sep s : str) : list str :=
  match partition sep s with
  | Some (a, b) => [a; b]
  | None => [s]
  end.

(** [s.replace(c, e)] with [c] a one-character string and [e] the empty
    string: every occurrence of [c] is removed. *)
Definition remove_char (c : ascii) (s : str) : str :=
  List.filter (fun d => negb (char_eqb c d)) s.

End Text.

(* ------------------------------------------------------------------ *)
(** ** The fragment of [re] the search uses

    Patterns are built by [re.escape], possibly behind a leading [^].  The
    fragment has literal characters, escaped characters, the wildcard [.]
    and the anchor [^]; a pattern outside of it is not interpreted. *)

Module Regex.
Import Text.

Inductive atom :=
| Lit (c : ascii)
| AnyChar
| Bol.

(** [re._special_chars_map]: the characters [re.escape] puts a backslash
    in front of:  ( ) [ ] { } ? * + - | ^ $ \ . & ~ #  and space, tab,
    LF, CR, VT, FF. *)
Definition special_codes : list N :=
  [40; 41; 91; 93; 123; 125; 63; 42; 43; 45; 124; 94; 36; 92; 46; 38;
   126; 35; 32; 9; 10; 13; 11; 12]%N.

Definition is_special (c : ascii) : bool :=
  existsb (N.eqb (code c)) special_codes.

Definition backslash : ascii := ascii_of_N 92.
Definition newline : ascii := ascii_of_N 10.

(** [re.escape(s)] *)
Fixpoint escape (s : str) : str :=
  match s with
  | [] => []
  | c :: s' => if is_special c then backslash :: c :: escape s'
               else c :: escape s'
  end.

(** Characters with a meaning of their own in a pattern. *)
Definition meta_codes : list N :=
  [46; 94; 36; 42; 43; 63; 123; 125; 91; 93; 92; 124; 40; 41]%N.

Definition is_meta (c : ascii) : bool :=
  existsb (N.eqb (code c)) meta_codes.

Definition is_alnum (c : ascii) : bool :=
  is_upper c || is_lower c || is_digit c.

(** Reading a pattern.  A backslash followed by a character that is not an
    ASCII letter or digit stands for that character; [.] is the wildcard,
    [^] the start anchor; any other metacharacter, and a backslash followed
    by a letter or digit, is outside the fragment. *)
Fixpoint parse (p : str) : option (list atom) :=
  match p with
  | [] => Some []
  | c :: p' =>
      if N.eqb (code c) 92 then
        match p' with
        | [] => None
        | d :: p'' =>
            if is_alnum d then None
            else match parse p'' with
                 | Some l => Some (Lit d :: l)
                 | None => None
                 end
        end
      else
        let rest := parse p' in
        if N.eqb (code c) 46 then option_map (cons AnyChar) rest
        else if N.eqb (code c) 94 then option_map (cons Bol) rest
        else if is_meta c then None
        else option_map (cons (Lit c)) rest
  end.

(** Character comparison under [re.IGNORECASE]. *)
Definition ci_eqb (a b : ascii) : bool :=
  char_eqb (lower_char a) (lower_char b).

(** The atoms of [p] match a prefix of [s]; [at_start] tells whether [s]
    begins at the start of the subject. *)
Fixpoint match_here (p : list atom) (at_start : bool) (s : str) : bool :=
  match p with
  | [] => true
  | Bol :: p' => at_start && match_here p' at_start s
  | Lit c :: p' =>
      match s with
      | d :: s' => ci_eqb c d && match_here p' false s'
      | [] => false
      end
  | AnyChar :: p' =>
      match s with
      | d :: s' => negb (char_eqb d newline) && match_here p' false s'
      | [] => false
      end
  end.

Fixpoint search_from (p : list atom) (at_start : bool) (s : str) : bool :=
  match_here p at_start s ||
  match s with
  | [] => false
  | _ :: s' => search_from p false s'
  end.

(** [Series.str.contains(pat, case=False, na=False)] on one string cell:
    [re.compile(pat, re.IGNORECASE).search(s)] is not [None]. *)
Definition str_contains (pat s : str) : option bool :=
  option_map (fun p => search_from p true s) (parse pat).

(** [Series.str.match(pat, case=False, na=False)] on one string cell:
    [re.compile(pat, re.IGNORECASE).match(s)] is not [None]. *)
Definition str_match (pat s : str) : option bool :=
  option_map (fun p => match_here p true s) (parse pat).

End Regex.

(* ------------------------------------------------------------------ *)
(** ** Python [float]: IEEE 754 binary64 *)

Module F64.
Import Text.

Definition prec : Z := 53.
Definition emax : Z := 1024.

Abbreviation float := spec_float.

Definition zero : float := S754_zero false.

Definition is_nan (f : float) : bool :=
  match f with
  | S754_nan => true
  | _ => false
  end.

Definition mul : float -> float -> float := SFmul prec emax.
Definition add : float -> float -> float := SFadd prec emax.

(** [x >= 0.0] *)
Definition ge_zero (f : float) : bool := SFleb zero f.

(** The double nearest to [m * 10^e] (ties to even), for [0 <= m]; this is
    what [float] makes of a decimal literal. *)
Definition of_decimal (neg : bool) (m e : Z) : float :=
  match m with
  | Z0 => S754_zero neg
  | Zpos p =>
      match e with
      | Zneg k =>
          let '(q, e', l) :=
            SFdiv_core_binary prec emax (Zpos p) 0 (Zpos (Pos.pow 10 k)) 0 in
          binary_round_aux prec emax neg q e' l
      | Z0 => binary_round prec emax neg p 0
      | Zpos k => binary_round prec emax neg (p * Pos.pow 10 k) 0
      end
  | Zneg _ => S754_nan
  end.

(** [float(n)] for a Python [int]: the nearest double, [OverflowError]
    when it is out of range. *)
Definition of_int (n : Z) : result float :=
  match binary_normalize prec emax n 0 false with
  | S754_infinity _ => Raise OverflowError
  | f => Ok f
  end.

(** [int(x)] for a Python [float]: truncation toward zero. *)
Definition to_int (f : float) : result Z :=
  match f with
  | S754_zero _ => Ok 0
  | S754_finite s m e => Ok (cond_Zopp s (Z.shiftl (Zpos m) e))
  | S754_infinity _ => Raise OverflowError
  | S754_nan => Raise (ValueError (lit "cannot convert float NaN to integer"))
  end.

(** *** [float(s)] for a string *)

Inductive literal :=
| LNum (neg : bool) (m e : Z)
| LInf (neg : bool)
| LNan.

Definition digit_val (c : ascii) : Z := Z.of_N (code c) - 48.

Definition is_underscore (c : ascii) : bool := N.eqb (code c) 95.

(** Underscores are allowed between two digits only, and are dropped:
    [prev] is the previous character of the input, if any. *)
Fixpoint drop_underscores (prev : option ascii) (s : str) : option str :=
  match s with
  | [] =>
      match prev with
      | Some p => if is_underscore p then None else Some []
      | None => Some []
      end
  | c :: s' =>
      let prev_digit := from_option is_digit false prev in
      let prev_under := from_option is_underscore false prev in
      if is_underscore c then
        if prev_digit then drop_underscores (Some c) s' else None
      else if prev_under && negb (is_digit c) then None
      else option_map (cons c) (drop_underscores (Some c) s')
  end.

(** A run of digits continuing the number [acc]: the number read, how
    many digits were read, and the rest of the input. *)
Fixpoint digits (s : str) (acc cnt : Z) : Z * Z * str :=
  match s with
  | c :: s' =>
      if is_digit c then digits s' (10 * acc + digit_val c) (cnt + 1)
      else (acc, cnt, s)
  | [] => (acc, cnt, [])
  end.

Definition sign (s : str) : bool * str :=
  match s with
  | c :: s' =>
      if N.eqb (code c) 45 then (true, s')
      else if N.eqb (code c) 43 then (false, s')
      else (false, s)
  | [] => (false, [])
  end.

Definition is_nil (s : str) : bool :=
  match s with
  | [] => true
  | _ => false
  end.

Definition exponent (s : str) : option Z :=
  match s with
  | [] => Some 0
  | c :: s' =>
      if N.eqb (code c) 101 || N.eqb (code c) 69 then
        let '(neg, s1) := sign s' in
        let '(v, n, rest) := digits s1 0 0 in
        if (0 <? n) && is_nil rest then Some (if neg then - v else v)
        else None
      else None
  end.

(** [digits [. digits] [e [sign] digits]] with at least one mantissa
    digit: the mantissa as an integer and the decimal exponent. *)
Definition number (s : str) : option (Z * Z) :=
  let '(m1, n1, r1) := digits s 0 0 in
  let '(m2, n2, r2) :=
    match r1 with
    | c :: r => if N.eqb (code c) 46 then digits r m1 0 else (m1, 0, r1)
    | [] => (m1, 0, [])
    end in
  if 0 <? n1 + n2 then
    match exponent r2 with
    | Some x => Some (m2, x - n2)
    | None => None
    end
  else None.

(** The white space [float] skips at both ends of the text: the C
    [isspace] set (tab, LF, VT, FF, CR and space), which is narrower than
    the one of [str.strip]. *)
Definition is_c_space (c : ascii) : bool :=
  (((9 <=? code c) && (code c <=? 13)) || (code c =? 32))%N.

Fixpoint skip_spaces (s : str) : str :=
  match s with
  | c :: s' => if is_c_space c then skip_spaces s' else s
  | [] => []
  end.

Definition trim (s : str) : str :=
  rev (skip_spaces (rev (skip_spaces s))).

Definition read_literal (s : str) : option literal :=
  match drop_underscores None (trim s) with
  | None => None
  | Some t =>
      let '(neg, u) := sign t in
      let l := lower u in
      if str_eqb l (lit "inf") || str_eqb l (lit "infinity") then
        Some (LInf neg)
      else if str_eqb l (lit "nan") then Some LNan
      else option_map (fun me => LNum neg (fst me) (snd me)) (number u)
  end.

Definition of_literal (l : literal) : float :=
  match l with
  | LNum neg m e => of_decimal neg m e
  | LInf neg => S754_infinity neg
  | LNan => S754_nan
  end.

(** [float(s)]: [ValueError] when [s] is not a float literal. *)
Definition of_str (s : str) : result float :=
  match read_literal s with
  | Some l => Ok (of_literal l)
  | None => Raise (ValueError (lit "could not convert string to float"))
  end.

End F64.

(* ------------------------------------------------------------------ *)
(** ** [str(n)] and [repr(x)] for numbers *)

Module Show.
Import Text.

(** [str(n)] for a Python [int]. *)
Definition of_Z (n : Z) : str :=
  lit (NilZero.string_of_int (Z.to_int n)).

Definition zeros (n : Z) : str := repeat (ascii_of_N 48) (Z.to_nat n).

Definition float_eqb (a b : F64.float) : bool :=
  match a, b with
  | S754_zero s, S754_zero t => Bool.eqb s t
  | S754_infinity s, S754_infinity t => Bool.eqb s t
  | S754_nan, S754_nan => true
  | S754_finite s m e, S754_finite t n f =>
      Bool.eqb s t && Pos.eqb m n && Z.eqb e f
  | _, _ => false
  end.

(** [num / den < 10^k] *)
Definition below_pow10 (num den k : Z) : bool :=
  if 0 <=? k then num <? den * 10 ^ k else num * 10 ^ (- k) <? den.

(** The least [k] from [k0] on with [num / den < 10^k]. *)
Fixpoint find_decpt (fuel : nat) (num den k : Z) : Z :=
  match fuel with
  | O => k
  | S n => if below_pow10 num den k then k
           else find_decpt n num den (k + 1)
  end.

(** The shortest digit string: for [p = 1, 2, ...] digits, the two
    [p]-digit neighbours of [num / den] are tried, and the first [p] at
    which one of them reads back as [f] wins (the nearer one when both
    do).  Returns the digits as a number and its decimal exponent. *)
Fixpoint shortest (fuel : nat) (f : F64.float) (num den k p : Z) : Z * Z :=
  let x := p - k in
  let a := if 0 <=? x then num * 10 ^ x else num in
  let b := if 0 <=? x then den else den * 10 ^ (- x) in
  let lo := a / b in
  let r := a mod b in
  let back d := float_eqb (F64.of_decimal false d (k - p)) f in
  match fuel with
  | O => (lo, k - p)
  | S n =>
      let oklo := (0 <? lo) && back lo in
      let okhi := back (lo + 1) in
      if oklo && (negb okhi || (2 * r <=? b)) then (lo, k - p)
      else if okhi then (lo + 1, k - p)
      else shortest n f num den k (p + 1)
  end.

Fixpoint drop_zeros (s : str) : str :=
  match s with
  | c :: s' => if N.eqb (code c) 48 then drop_zeros s' else s
  | [] => []
  end.

(** [float_repr_style = 'short']: exponent form when the decimal point
    position is at most -4 or above 16, a trailing [.0] otherwise when
    the digits have no fractional part. *)
Definition layout (ds : str) (decpt : Z) : str :=
  let n := Z.of_nat (length ds) in
  if (decpt <=? -4) || (16 <? decpt) then
    let e := decpt - 1 in
    let es := of_Z (Z.abs e) in
    take 1 ds
      ++ (if 1 <? n then lit "." ++ drop 1 ds else [])
      ++ lit "e" ++ (if e <? 0 then lit "-" else lit "+")
      ++ (if Z.abs e <? 10 then lit "0" else []) ++ es
  else if decpt <=? 0 then lit "0." ++ zeros (- decpt) ++ ds
  else if n <=? decpt then ds ++ zeros (decpt - n) ++ lit ".0"
  else take (Z.to_nat decpt) ds ++ lit "." ++ drop (Z.to_nat decpt) ds.

(** [repr(x)], which is also [str(x)], for a Python [float]. *)
Definition of_float (f : F64.float) : str :=
  match f with
  | S754_nan => lit "nan"
  | S754_infinity s => if s then lit "-inf" else lit "inf"
  | S754_zero s => if s then lit "-0.0" else lit "0.0"
  | S754_finite s m e =>
      let num := if 0 <=? e then Z.shiftl (Zpos m) e else Zpos m in
      let den := if 0 <=? e then 1 else 2 ^ (- e) in
      let k := find_decpt 700 num den (-330) in
      let '(d, x) := shortest 17 (S754_finite false m e) num den k 1 in
      let full := of_Z d in
      let ds := rev (drop_zeros (rev full)) in
      (if s then lit "-" else [])
        ++ layout ds (x + Z.of_nat (length full))
  end.

End Show.

(* ------------------------------------------------------------------ *)
(** ** Spreadsheet cells and the numeric coercions *)

Module Cell.
Import Text.

(** A cell of the raw data frame.  [CNone] stands for [None]; a missing
    numeric cell is the float NaN.  [CObj] is any other scalar object,
    given by its [str()] form. *)
Inductive cell :=
| CNone
| CFloat (f : F64.float)
| CStr (s : str)
| CInt (n : Z)
| CBool (b : bool)
| CObj (repr : str).

(** [pd.isna(val)] on a scalar. *)
Definition pd_isna (val : cell) : bool :=
  match val with
  | CNone => true
  | CFloat f => F64.is_nan f
  | _ => false
  end.

(** [str(val)] *)
Definition py_str (val : cell) : str :=
  match val with
  | CNone => lit "None"
  | CFloat f => Show.of_float f
  | CStr s => s
  | CInt n => Show.of_Z n
  | CBool b => if b then lit "True" else lit "False"
  | CObj r => r
  end.

Definition comma : ascii := ascii_of_N 44.

Definition to_int_body (val : cell) : result Z :=
  if pd_isna val then Ok 0
  else do f <- F64.of_str (strip (py_str val)); F64.to_int f.

Definition to_int (val : cell) : result Z :=
  try_except (to_int_body val) 0.

Definition to_float_body (val : cell) : result F64.float :=
  if pd_isna val then Ok F64.zero
  else F64.of_str (remove_char comma (strip (py_str val))).

Definition to_float (val : cell) : result F64.float :=
  try_except (to_float_body val) F64.zero.

End Cell.

(* ------------------------------------------------------------------ *)
(** ** Column resolver: [CANDIDATES], [_norm], [build_column_map] *)

Module Resolver.
Import Text.

(** The canonical field names, as the keys of [CANDIDATES]. *)
Definition k_model : str := lit "model".
Definition k_material_description : str := lit "material_description".
Definition k_shrm : str := lit "shrm".
Definition k_home : str := lit "home".
Definition k_stock : str := lit "stock".
Definition k_used_spares : str := lit "used_spares".
Definition k_price : str := lit "price".

(** [CANDIDATES], with the insertion order [dict.items()] iterates in. *)
Definition CANDIDATES : list (str * list str) :=
  [ (k_model,
     [lit "model"; lit "partno"; lit "partnumber"; lit "itemcode";
      lit "material"]);
    (k_material_description,
     [lit "materialdescription"; lit "description"; lit "desc";
      lit "itemdesc"; lit "materialdesc"]);
    (k_shrm, [lit "shrm"; lit "showroom"]);
    (k_home, [lit "home"; lit "godown"; lit "warehouse"]);
    (k_stock, [lit "stock"; lit "qty"; lit "quantity"; lit "onhand"]);
    (k_used_spares, [lit "usedspares"; lit "used spares"; lit "used"]);
    (k_price, [lit "price"; lit "unitprice"; lit "cost"; lit "salesprice"]) ].

(** [CANDIDATES[key]] for a key of the table. *)
Fixpoint candidates_of (key : str) (table : list (str * list str))
  : list str :=
  match table with
  | [] => []
  | (k, options) :: t =>
      if str_eqb k key then options else candidates_of key t
  end.

(** The characters [re.sub(r"[^a-z0-9]", ...)] keeps. *)
Definition keeps (c : ascii) : bool := is_lower c || is_digit c.

Definition _norm (s : str) : str :=
  List.filter keeps (lower (strip s)).

(** [{_norm(c): c for c in df_columns}]: a later column overwrites an
    earlier one with the same normal form. *)
Definition norm_to_actual (df_columns : list str) : gmap (list ascii) str :=
  fold_left (fun m c => <[_norm c := c]> m) df_columns ∅.

(** The inner loop: the first option whose normal form is a key of
    [norm_to_actual], with the actual header it stands for. *)
Fixpoint first_match (nta : gmap (list ascii) str) (options : list str)
  : option str :=
  match options with
  | [] => None
  | opt :: rest =>
      match nta !! _norm opt with
      | Some actual => Some actual
      | None => first_match nta rest
      end
  end.

Definition resolve (nta : gmap (list ascii) str)
    (colmap : gmap (list ascii) str) (entry : str * list str)
  : gmap (list ascii) str :=
  match first_match nta (snd entry) with
  | Some actual => <[fst entry := actual]> colmap
  | None => colmap
  end.

Definition quote : ascii := ascii_of_N 39.

Fixpoint join (sep : str) (l : list str) : str :=
  match l with
  | [] => []
  | [x] => x
  | x :: t => x ++ sep ++ join sep t
  end.

(** [repr] of a list of plain strings, as an f-string prints it. *)
Definition repr_list (l : list str) : str :=
  lit "[" ++ join (lit ", ") (map (fun s => quote :: s ++ [quote]) l)
    ++ lit "]".

Definition LF : str := [ascii_of_N 10].

Definition schema_message : str :=
  lit "Your sheet must have columns for Model and Description (with any of these headers):"
    ++ LF ++ LF
    ++ lit "Model: " ++ repr_list (candidates_of k_model CANDIDATES) ++ LF
    ++ lit "Description: "
    ++ repr_list (candidates_of k_material_description CANDIDATES).

Definition has_key (m : gmap (list ascii) str) (k : str) : bool :=
  bool_decide (is_Some (m !! k)).

Definition build_column_map (df_columns : list str)
  : result (gmap (list ascii) str) :=
  let nta := norm_to_actual df_columns in
  let colmap := fold_left (resolve nta) CANDIDATES ∅ in
  if negb (has_key colmap k_model)
     || negb (has_key colmap k_material_description)
  then Raise (ValueError schema_message)
  else Ok colmap.

End Resolver.

(* ------------------------------------------------------------------ *)
(** ** Row normaliser: [build_app_df] *)

Module Normalizer.
Import Text Cell Resolver.

(** A raw data frame: its row count and its columns by header. *)
Record raw_frame := {
  nrows : nat;
  columns : gmap (list ascii) (list cell)
}.

(** A row of the application data frame. *)
Record StockRecord := {
  model : str;
  material_description : str;
  shrm : str;
  home : str;
  stock : Z;
  used_spares : Z;
  price : F64.float
}.

(** [raw_df[name]] *)
Definition column (raw_df : raw_frame) (name : str) : result (list cell) :=
  match columns raw_df !! name with
  | Some c => Ok c
  | None => Raise (KeyError name)
  end.

Definition col_series (raw_df : raw_frame) (colmap : gmap (list ascii) str)
    (key : str) (default : cell) : result (list cell) :=
  match colmap !! key with
  | Some name => column raw_df name
  | None => Ok (repeat default (nrows raw_df))
  end.

(** [Series.fillna(v)] *)
Definition fillna (v : cell) (s : list cell) : list cell :=
  map (fun c => if pd_isna c then v else c) s.

(** [Series.astype(str)] *)
Definition astype_str (s : list cell) : list str := map py_str s.

(** [Series.replace(a, b)] on a series of strings: whole values equal to
    [a] become [b]. *)
Definition replace (a b : str) (s : list str) : list str :=
  map (fun x => if str_eqb x a then b else x) s.

(** [Series.apply(f)] *)
Definition apply {A} (f : cell -> result A) (s : list cell)
  : result (list A) :=
  sequence (map f s).

Definition N_A : str := lit "N-A".

(** [pd.DataFrame({...})] from seven aligned columns. *)
Fixpoint frame (m d s h : list str) (st us : list Z) (p : list F64.float)
  : list StockRecord :=
  match m, d, s, h, st, us, p with
  | m0 :: m', d0 :: d', s0 :: s', h0 :: h', st0 :: st', us0 :: us', p0 :: p' =>
      {| model := m0; material_description := d0; shrm := s0; home := h0;
         stock := st0; used_spares := us0; price := p0 |}
        :: frame m' d' s' h' st' us' p'
  | _, _, _, _, _, _, _ => []
  end.

Definition build_app_df (raw_df : raw_frame) (colmap : gmap (list ascii) str)
  : result (list StockRecord) :=
  let n := nrows raw_df in
  do model <- col_series raw_df colmap k_model (CStr []);
  do desc <- col_series raw_df colmap k_material_description (CStr []);
  do shrm <- col_series raw_df colmap k_shrm (CStr []);
  do home <- col_series raw_df colmap k_home (CStr []);
  let shrm := fillna (CStr N_A) shrm in
  let home := fillna (CStr N_A) home in
  do stock <-
    (if has_key colmap k_stock
     then do c <- col_series raw_df colmap k_stock (CInt 0); apply to_int c
     else Ok (repeat 0 n));
  do used <-
    (if has_key colmap k_used_spares
     then do c <- col_series raw_df colmap k_used_spares (CInt 0);
          apply to_int c
     else Ok (repeat 0 n));
  do price <-
    (do c <- col_series raw_df colmap k_price (CInt 0); apply to_float c);
  Ok (frame (astype_str model) (astype_str desc)
        (replace (lit "nan") N_A (astype_str shrm))
        (replace (lit "nan") N_A (astype_str home))
        stock used price).

End Normalizer.

(* ------------------------------------------------------------------ *)
(** ** Tab 1: the live filter and the add-to-list resolution *)

Module Search.
Import Text Regex Normalizer.

Definition SEP : str := lit " - ".
Definition caret : ascii := ascii_of_N 94.

(** [a & b] and [a | b] on one position of two boolean series; there is
    no verdict when a pattern is outside the fragment of [Regex]. *)
Definition and_mask (a b : option bool) : option bool :=
  match a, b with
  | Some x, Some y => Some (x && y)
  | _, _ => None
  end.

Definition or_mask (a b : option bool) : option bool :=
  match a, b with
  | Some x, Some y => Some (x || y)
  | _, _ => None
  end.

(** [q_model, q_desc = q.split(SEP, 1)] followed by the AND of the two
    containment tests; unpacking anything but two parts gives no verdict. *)
Definition both_parts (q : str) (r : StockRecord) : option bool :=
  match split1 SEP q with
  | [q_model; q_desc] =>
      and_mask (str_contains (escape q_model) (model r))
               (str_contains (escape q_desc) (material_description r))
  | _ => None
  end.

(** The mask of the live filter at one row, for a non-empty
    [search_value]. *)
Definition filter_mask (q : str) (r : StockRecord) : option bool :=
  if str_in SEP q then both_parts q r
  else or_mask (str_contains (escape q) (model r))
               (str_contains (escape q) (material_description r)).

(** The mask of the add-to-list resolution at one row. *)
Definition hits_mask (q : str) (r : StockRecord) : option bool :=
  if str_in SEP q then both_parts q r
  else or_mask (str_match (caret :: escape q) (model r))
               (str_contains (escape q) (material_description r)).

(** [df[mask]] *)
Fixpoint select {A} (mask : A -> option bool) (df : list A)
  : option (list A) :=
  match df with
  | [] => Some []
  | r :: df' =>
      match mask r, select mask df' with
      | Some b, Some t => Some (if b then r :: t else t)
      | _, _ => None
      end
  end.

(** [str(search_value or ...).strip()] on the text of the search box. *)
Definition search_value (typed : str) : str := strip typed.

Definition nonempty (s : str) : bool := negb (F64.is_nil s).

(** [spare_filtered], when [search_value] is not empty. *)
Definition spare_filtered (df : list StockRecord) (typed : str)
  : option (list StockRecord) :=
  let q := search_value typed in
  if nonempty q then select (filter_mask q) df else Some [].

Definition q_display (q : str) : str :=
  if str_in SEP q then
    match split1 SEP q with
    | [q_model; q_desc] => q_model ++ lit " - " ++ q_desc
    | _ => q
    end
  else q.

(** A line of the request list: the fields of a stock row and [qty],
    which is [None] when the entry has no quantity. *)
Record RequestLine := {
  item : StockRecord;
  qty : option Z
}.

(** [add_request_row(row)]: the conversions [str], [int] and [float] are
    the identity on fields of those types. *)
Definition add_request_row (row : StockRecord)
    (request_rows : list RequestLine) : list RequestLine :=
  request_rows ++ [ {| item := row; qty := Some 1 |} ].

(** [hits.iloc[i]]: negative positions count from the end. *)
Definition iloc {A} (l : list A) (i : Z) : result A :=
  let n := Z.of_nat (length l) in
  let j := if i <? 0 then i + n else i in
  if (0 <=? j) && (j <? n) then
    match l !! Z.to_nat j with
    | Some a => Ok a
    | None => Raise IndexError
    end
  else Raise IndexError.

Inductive message :=
| Error (text : str)
| Success (text : str)
| Warning (text : str).

(** The two buttons of the add flow. *)
Inductive button :=
| AddToList
| ConfirmAdd.

(** What the widgets of the add flow return in one run of the script.
    [st.button] returns [True] only in the run that its own click
    triggers, so at most one button reads [True] in a run: [clicked] is
    that button, if the run comes from a button. *)
Record add_widgets := {
  clicked : option button;
  match_index : Z
}.

(** [st.button("Add to List")] *)
Definition add_button (w : add_widgets) : bool :=
  match clicked w with
  | Some AddToList => true
  | _ => false
  end.

(** [st.button("Confirm Add Selected Match")] *)
Definition confirm_button (w : add_widgets) : bool :=
  match clicked w with
  | Some ConfirmAdd => true
  | _ => false
  end.

(** The block under [if add_button and search_value], from the current
    request list to the new one and the messages shown. *)
Definition add_to_list (df : list StockRecord) (typed : str)
    (w : add_widgets) (request_rows : list RequestLine)
  : option (result (list RequestLine * list message)) :=
  let q := search_value typed in
  if add_button w && nonempty q then
    match select (hits_mask q) df with
    | None => None
    | Some hits =>
        Some
          match hits with
          | [] => Ok (request_rows,
                      [Error (lit "Part not found: " ++ q_display q)])
          | [row] =>
              Ok (add_request_row row request_rows,
                  [Success (lit "Added: " ++ model row)])
          | _ =>
              let found :=
                Warning (lit "Found " ++ Show.of_Z (Z.of_nat (length hits))
                           ++ lit " matches. Please choose one:") in
              if confirm_button w then
                do row <- iloc hits (match_index w);
                Ok (add_request_row row request_rows,
                    [found; Success (lit "Added: " ++ model row)])
              else Ok (request_rows, [found])
          end
    end
  else Some (Ok (request_rows, [])).

(** [available_qty], shown when the live filter has exactly one row. *)
Definition available_qty (filtered : list StockRecord) : option Z :=
  match filtered with
  | [row] => Some (stock row - used_spares row)
  | _ => None
  end.

End Search.

(* ------------------------------------------------------------------ *)
(** ** Tab 2: the request list *)

Module Cart.
Import Normalizer Search.

(** The [int64] range of an integer column. *)
Definition in_int64 (n : Z) : bool :=
  (- 2 ^ 63 <=? n) && (n <? 2 ^ 63).

Definition wrap64 (n : Z) : Z :=
  (n + 2 ^ 63) mod 2 ^ 64 - 2 ^ 63.

(** [Series.astype(int)] on one integer value. *)
Definition astype_int (n : Z) : result Z :=
  if in_int64 n then Ok n else Raise OverflowError.

(** The nearest double of an [int64], as in [float64 * int64]. *)
Definition float_of_int64 (n : Z) : F64.float :=
  binary_normalize F64.prec F64.emax n 0 false.

(** A row of [req_df]. *)
Record ReqRow := {
  rr_item : StockRecord;
  rr_qty : Z;
  rr_line_total : F64.float
}.

(** [req_df]: [qty] filled with 1 where missing, made an integer and
    clamped at 0 from below, and [line_total = price * qty]. *)
Definition req_row (l : RequestLine) : result ReqRow :=
  do q <- astype_int (default 1 (qty l));
  let q := if q <? 0 then 0 else q in
  Ok {| rr_item := item l; rr_qty := q;
        rr_line_total := F64.mul (price (item l)) (float_of_int64 q) |}.

Definition req_df (req_rows : list RequestLine) : result (list ReqRow) :=
  sequence (map req_row req_rows).

(** The totals shown under the list. *)
Record totals := {
  total_items : Z;
  total_qty : Z;
  total_amount : F64.float
}.

(** [sum(xs)] of Python floats: from the integer 0, left to right. *)
Definition py_sum (xs : list F64.float) : F64.float :=
  fold_left F64.add xs F64.zero.

Definition sum_Z (xs : list Z) : Z := fold_left Z.add xs 0.

(** *** The card path ([mobile_view]) *)

(** [st.number_input(min_value=m, value=v)]: the value entered if there
    is one, the initial value otherwise; an initial value below the
    minimum is refused by the widget. *)
Definition number_input (min_value value : Z) (entered : option Z)
  : result Z :=
  if value <? min_value then Raise StreamlitAPIException
  else Ok (default value entered).

(** [float(price) * int(qty)] *)
Definition price_times (p : F64.float) (q : Z) : result F64.float :=
  do f <- F64.of_int q; Ok (F64.mul p f).

(** One pass of the loop over [req_df.iterrows()]: the widget with key
    [qty_idx] and the updated line. *)
Definition card_row (entered : nat -> option Z) (idx : nat) (row : ReqRow)
  : result RequestLine :=
  do q <- number_input 0 (rr_qty row) (entered idx);
  do _ <- price_times (price (rr_item row)) q;
  Ok {| item := rr_item row; qty := Some q |}.

Definition card_rows (entered : nat -> option Z) (df : list ReqRow)
  : result (list RequestLine) :=
  sequence (imap (card_row entered) df).

Definition card_totals (updated_rows : list RequestLine) : result totals :=
  do amounts <-
    sequence (map (fun r => price_times (price (item r)) (default 0 (qty r)))
                  updated_rows);
  Ok {| total_items := Z.of_nat (length updated_rows);
        total_qty := sum_Z (map (fun r => default 0 (qty r)) updated_rows);
        total_amount := py_sum amounts |}.

(** The card path: the stored request list after the run, and the totals. *)
Definition card_path (entered : nat -> option Z) (req_rows : list RequestLine)
  : result (list RequestLine * totals) :=
  do df <- req_df req_rows;
  do updated_rows <- card_rows entered df;
  do t <- card_totals updated_rows;
  Ok (updated_rows, t).

(** *** The table path ([st.data_editor]) *)

(** What the user did to the [qty] cell of a row of the editor. *)
Inductive edit :=
| Keep
| Clear
| Put (q : Z).

(** A row of [edited_df]: the [qty] cell is empty after [Clear]. *)
Definition edited_qty (e : edit) (row : ReqRow) : option Z :=
  match e with
  | Keep => Some (rr_qty row)
  | Clear => None
  | Put q => Some q
  end.

(** [edited_df] after [qty] is filled with 0 and made an integer and
    [line_total] is recomputed. *)
Definition table_row (edits : nat -> edit) (idx : nat) (row : ReqRow)
  : result ReqRow :=
  do q <- astype_int (default 0 (edited_qty (edits idx) row));
  Ok {| rr_item := rr_item row; rr_qty := q;
        rr_line_total := F64.mul (price (rr_item row)) (float_of_int64 q) |}.

Definition edited_df (edits : nat -> edit) (df : list ReqRow)
  : result (list ReqRow) :=
  sequence (imap (table_row edits) df).

(** [edited_df.drop(columns=[line_total]).to_dict(records)] *)
Definition to_records (df : list ReqRow) : list RequestLine :=
  map (fun row => {| item := rr_item row; qty := Some (rr_qty row) |}) df.

(** [Series.sum()] of a float column: NaN entries count as 0. *)
Definition nansum (xs : list F64.float) : F64.float :=
  fold_left F64.add
    (map (fun x => if F64.is_nan x then F64.zero else x) xs) F64.zero.

Definition table_totals (df : list ReqRow) : totals :=
  {| total_items := Z.of_nat (length df);
     total_qty := wrap64 (sum_Z (map rr_qty df));
     total_amount := nansum (map rr_line_total df) |}.

(** [==] between two stored lines: strings and integers by value, floats
    by IEEE equality (a NaN differs from itself). *)
Definition record_eqb (a b : StockRecord) : bool :=
  Text.str_eqb (model a) (model b)
  && Text.str_eqb (material_description a) (material_description b)
  && Text.str_eqb (shrm a) (shrm b)
  && Text.str_eqb (home a) (home b)
  && Z.eqb (stock a) (stock b)
  && Z.eqb (used_spares a) (used_spares b)
  && SFeqb (price a) (price b).

Definition qty_eqb (a b : option Z) : bool :=
  match a, b with
  | Some x, Some y => Z.eqb x y
  | None, None => true
  | _, _ => false
  end.

Definition line_eqb (a b : RequestLine) : bool :=
  record_eqb (item a) (item b) && qty_eqb (qty a) (qty b).

Fixpoint rows_eqb (a b : list RequestLine) : bool :=
  match a, b with
  | [], [] => true
  | x :: a', y :: b' => line_eqb x y && rows_eqb a' b'
  | _, _ => false
  end.

(** The table path: [new_rows] replaces the stored list when the two
    differ; the totals are those of [edited_df]. *)
Definition table_path (edits : nat -> edit) (req_rows : list RequestLine)
  : result (list RequestLine * totals) :=
  do df <- req_df req_rows;
  do ed <- edited_df edits df;
  let new_rows := to_records ed in
  let stored := if rows_eqb new_rows req_rows then req_rows else new_rows in
  Ok (stored, table_totals ed).

End Cart.

(* ------------------------------------------------------------------ *)
(** ** The vocabulary of the specification *)

Module Spec.
Import Text.

(** [p] occurs in [s] as a literal substring. *)
Definition occurs (p s : str) : Prop :=
  exists a b, s = a ++ p ++ b.

(** [q] is cut at the first occurrence of [sep] into [a] and [b]. *)
Definition first_split (sep q a b : str) : Prop :=
  q = a ++ sep ++ b /\
  forall a' b', q = a' ++ sep ++ b' -> (length a <= length a')%nat.

(** [p] occurs in [s] as a literal substring, letter case aside. *)
Definition ci_contains (p s : str) : Prop :=
  exists pre mid post, s = pre ++ mid ++ post /\ lower mid = lower p.

(** [s] starts with [p], letter case aside. *)
Definition ci_prefix (p s : str) : Prop :=
  exists mid post, s = mid ++ post /\ lower mid = lower p.

(** The normalisation rule in the order the specification words it:
    lower-case, strip, keep lowercase letters and digits only. *)
Definition norm_spec (s : str) : str :=
  List.filter Resolver.keeps (strip (lower s)).

(** Header [h] normalises to the normal form of an accepted alias of the
    canonical field [key]. *)
Definition alias_header (key h : str) : Prop :=
  exists a, In a (Resolver.candidates_of key Resolver.CANDIDATES)
            /\ norm_spec h = norm_spec a.

(** Some header of [cols] is an alias of [key]. *)
Definition resolvable (key : str) (cols : list str) : Prop :=
  exists h, In h cols /\ alias_header key h.

(** The decimal number [(-1)^neg * m * 10^e], truncated toward zero. *)
Definition trunc_decimal (neg : bool) (m e : Z) : Z :=
  cond_Zopp neg (if 0 <=? e then m * 10 ^ e else m / 10 ^ (- e)).

(** The value [(-1)^s * m * 2^e] of a finite double, truncated toward
    zero; 0 for the other doubles. *)
Definition trunc_double (f : F64.float) : Z :=
  match f with
  | S754_finite s m e =>
      cond_Zopp s (if 0 <=? e then Zpos m * 2 ^ e else Zpos m / 2 ^ (- e))
  | _ => 0
  end.

(** The three numeric fields of a stock record are not negative. *)
Definition nonneg_record (r : Normalizer.StockRecord) : Prop :=
  0 <= Normalizer.stock r /\ 0 <= Normalizer.used_spares r
  /\ F64.ge_zero (Normalizer.price r) = true.

(** What [float] makes of a text is at least zero: either [float]
    rejects the text, or it reads it as a value [x] with [0.0 <= x], which
    neither a negative value nor NaN is. *)
Definition reads_nonneg (text : str) : Prop :=
  (exists e, F64.of_str text = Raise e)
  \/ (exists x, F64.of_str text = Ok x /\ F64.ge_zero x = true).

(** A cell that is null, or whose text [float] rejects, or whose text
    [float] reads as a value that is at least zero.  The text is the one
    [to_int] reads, [str(val).strip()]; for [to_float] it is that text
    with its commas removed. *)
Definition nonneg_int_cell (c : Cell.cell) : Prop :=
  Cell.pd_isna c = true \/ reads_nonneg (strip (Cell.py_str c)).

Definition nonneg_float_cell (c : Cell.cell) : Prop :=
  Cell.pd_isna c = true
  \/ reads_nonneg (remove_char Cell.comma (strip (Cell.py_str c))).

(** Every cell of the column resolved for [key], if there is one,
    satisfies [P]. *)
Definition column_cells (P : Cell.cell -> Prop) (raw : Normalizer.raw_frame)
    (colmap : gmap (list ascii) (list ascii)) (key : str) : Prop :=
  forall name col,
    colmap !! key = Some name ->
    Normalizer.columns raw !! name = Some col ->
    Forall P col.

(** *** The request list *)


(** The stored quantities fit the integer column of [req_df]. *)
Definition stored_in_range (rows : list Search.RequestLine) : Prop :=
  Forall (fun l => Cart.in_int64 (default 1 (Search.qty l)) = true) rows.

(** The quantity widgets are declared with [min_value=0]: what they
    deliver is at least 0, and fits an integer column. *)
Definition entries_honour_min (entered : nat -> option Z) : Prop :=
  forall i q, entered i = Some q -> 0 <= q < 2 ^ 63.

Definition edits_honour_min (edits : nat -> Cart.edit) : Prop :=
  forall i q, edits i = Cart.Put q -> 0 <= q < 2 ^ 63.



(** The row [req_df] holds for a stored line: a missing quantity reads
    as 1, a negative one as 0. *)
Definition shown_qty (l : Search.RequestLine) : Z :=
  Z.max 0 (default 1 (Search.qty l)).

Definition shown_row (l : Search.RequestLine) : Cart.ReqRow :=
  {| Cart.rr_item := Search.item l;
     Cart.rr_qty := shown_qty l;
     Cart.rr_line_total :=
       F64.mul (Normalizer.price (Search.item l))
               (Cart.float_of_int64 (shown_qty l)) |}.

(** The line the card path stores for the row at position [i]. *)
Definition card_line (entered : nat -> option Z) (i : nat)
    (row : Cart.ReqRow) : Search.RequestLine :=
  {| Search.item := Cart.rr_item row;
     Search.qty := Some (default (Cart.rr_qty row) (entered i)) |}.

(** The row of [edited_df] at position [i], once [qty] is an integer. *)
Definition edited_row (edits : nat -> Cart.edit) (i : nat)
    (row : Cart.ReqRow) : Cart.ReqRow :=
  let q := default 0 (Cart.edited_qty (edits i) row) in
  {| Cart.rr_item := Cart.rr_item row;
     Cart.rr_qty := q;
     Cart.rr_line_total :=
       F64.mul (Normalizer.price (Cart.rr_item row)) (Cart.float_of_int64 q) |}.

End Spec.

(** The rows of [df] the add-to-list resolution counts as matches of
    [q], in the order of [df]. *)
Module Matching.
Import Search.

Definition is_hit (q : str) (r : Normalizer.StockRecord) : bool :=
  match hits_mask q r with
  | Some true => true
  | _ => false
  end.

Definition hits (q : str) (df : list Normalizer.StockRecord)
  : list Normalizer.StockRecord :=
  List.filter (is_hit q) df.

(** The line [add_request_row] makes of a row. *)
Definition new_line (row : Normalizer.StockRecord) : RequestLine :=
  {| item := row; qty := Some 1 |}.

End Matching.

(* ------------------------------------------------------------------ *)
(** ** Sample data *)

Module Examples.
Import Cell Normalizer Search Cart.

Definition f12_5 : F64.float :=
  Eval vm_compute in F64.of_literal (F64.LNum false 125 (-1)).
Definition f7 : F64.float :=
  Eval vm_compute in F64.of_literal (F64.LNum false 7 0).

Definition blade : StockRecord :=
  {| model := lit "M100"; material_description := lit "Blade";
     shrm := lit "3"; home := lit "2";
     stock := 5; used_spares := 1; price := f12_5 |}.

Definition guard : StockRecord :=
  {| model := lit "M101"; material_description := lit "Guard";
     shrm := lit "0"; home := lit "1";
     stock := 2; used_spares := 0; price := f7 |}.

Definition table : list StockRecord := [blade; guard].

Definition pressed (b : button) (index : Z) : add_widgets :=
  {| clicked := Some b; match_index := index |}.

(** A sheet with the two mandatory columns only, and its column map. *)
Definition two_columns : raw_frame :=
  {| nrows := 1;
     columns := list_to_map [(lit "Model", [CStr (lit "M100")]);
                             (lit "Description", [CStr (lit "Blade")])] |}.

Definition two_columns_map : gmap (list ascii) (list ascii) :=
  list_to_map [(Resolver.k_model, lit "Model");
               (Resolver.k_material_description, lit "Description")].

(** A sheet with a stock column: a negative stock in the first row, a
    plain one in the second; and the same sheet without the first row. *)
Definition stock_map : gmap (list ascii) (list ascii) :=
  list_to_map [(Resolver.k_model, lit "Model");
               (Resolver.k_material_description, lit "Description");
               (Resolver.k_stock, lit "Stock")].

Definition negative_stock : raw_frame :=
  {| nrows := 2;
     columns := list_to_map [(lit "Model", [CStr (lit "M100"); CStr (lit "M101")]);
                             (lit "Description",
                              [CStr (lit "Blade"); CStr (lit "Guard")]);
                             (lit "Stock", [CStr (lit "-5"); CInt 4])] |}.

Definition plain_stock : raw_frame :=
  {| nrows := 1;
     columns := list_to_map [(lit "Model", [CStr (lit "M101")]);
                             (lit "Description", [CStr (lit "Guard")]);
                             (lit "Stock", [CInt 4])] |}.

(** A part whose price cell held the text [inf], and the request list
    with one line of it. *)
Definition motor : StockRecord :=
  {| model := lit "M102"; material_description := lit "Motor";
     shrm := lit "1"; home := lit "0";
     stock := 1; used_spares := 0; price := S754_infinity false |}.

Definition motor_list : list RequestLine := [ {| item := motor; qty := Some 1 |} ].


Definition untouched : nat -> option Z := fun _ => None.
Definition kept : nat -> edit := fun _ => Keep.
Definition all_zero : nat -> option Z := fun _ => Some 0.
Definition all_put_zero : nat -> edit := fun _ => Put 0.

(** Headers of two sheets: one with both mandatory columns under aliases,
    one without a description column. *)
Definition headers_ok : list str :=
  [lit " Part No."; lit "Item-Desc"; lit "QTY"].
Definition headers_bad : list str :=
  [lit " Part No."; lit "QTY"].

End Examples.

(* ------------------------------------------------------------------ *)
(** ** Tab 1: the suggestions of the search box *)

Module Suggest.
Import Text Normalizer Search.

(** [all_suggestions]: the model and the description of every row, joined
    by the separator. *)
Definition suggestion (r : StockRecord) : str :=
  model r ++ lit " - " ++ material_description r.

Definition all_suggestions (df : list StockRecord) : list str :=
  map suggestion df.

(** [search_spares(searchterm)]: nothing for the empty term; otherwise the
    first 20 suggestions that contain the stripped term, letter case
    aside. *)
Definition search_spares (all_suggestions : list str) (searchterm : str)
  : list str :=
  if F64.is_nil searchterm then []
  else
    let term := lower (strip searchterm) in
    take 20 (List.filter (fun s => str_in term (lower s)) all_suggestions).

End Suggest.

(* ------------------------------------------------------------------ *)
(** ** Sheets as they are read from a file *)

Module Sheet.
Import Normalizer.

(** A data frame read from a file has one column for each of its
    headers, with one cell for each row. *)
Definition well_formed (cols : list str) (raw : raw_frame) : Prop :=
  forall h, In h cols ->
    exists c, columns raw !! h = Some c /\ length c = nrows raw.

(** The text the normaliser makes of a showroom or home cell. *)
Definition place_text (c : Cell.cell) : str :=
  if Cell.pd_isna c then N_A
  else if Text.str_eqb (Cell.py_str c) (lit "nan") then N_A
  else Cell.py_str c.

(** The cell of row [i] in the column bound to [key], if the field is
    bound. *)
Definition cell_at (raw : raw_frame) (colmap : gmap (list ascii) (list ascii))
    (key : str) (i : nat) : option Cell.cell :=
  name ← colmap !! key; col ← columns raw !! name; col !! i.

End Sheet.

(** A sheet with a showroom column: a missing cell, the text [nan], and
    a shelf name; the model of the last row is missing. *)
Module SheetSamples.
Import Cell Normalizer.

Definition showroom_sheet : raw_frame :=
  {| nrows := 3;
     columns :=
       list_to_map
         [(lit "Model", [CStr (lit "M100"); CStr (lit "M101"); CFloat S754_nan]);
          (lit "Description",
           [CStr (lit "Blade"); CStr (lit "Guard"); CStr (lit "Motor")]);
          (lit "Showroom", [CFloat S754_nan; CStr (lit "nan"); CStr (lit "A3")])] |}.

Definition showroom_map : gmap (list ascii) (list ascii) :=
  list_to_map [(Resolver.k_model, lit "Model");
               (Resolver.k_material_description, lit "Description");
               (Resolver.k_shrm, lit "Showroom")].

(** A sheet with the three numeric columns, its column map, and the
    records the normaliser makes of it. *)
Definition priced_sheet : raw_frame :=
  {| nrows := 3;
     columns :=
       list_to_map
         [(lit "Model",
           [CStr (lit "M100"); CStr (lit "M101"); CStr (lit "M102")]);
          (lit "Description",
           [CStr (lit "Blade"); CStr (lit "Guard"); CStr (lit "Motor")]);
          (lit "Stock", [CInt 4; CStr (lit "n/a"); CNone]);
          (lit "Used", [CStr (lit " 1 "); CFloat S754_nan; CStr (lit "2.9")]);
          (lit "Price",
           [CStr (lit "1,200.50"); CFloat Examples.f7; CStr (lit "free")])] |}.

Definition priced_map : gmap (list ascii) (list ascii) :=
  list_to_map [(Resolver.k_model, lit "Model");
               (Resolver.k_material_description, lit "Description");
               (Resolver.k_stock, lit "Stock");
               (Resolver.k_used_spares, lit "Used");
               (Resolver.k_price, lit "Price")].

Definition f1200_5 : F64.float :=
  Eval vm_compute in F64.of_literal (F64.LNum false 120050 (-2)).

Definition priced_records : list StockRecord :=
  [ {| model := lit "M100"; material_description := lit "Blade";
       shrm := []; home := [];
       stock := 4; used_spares := 1; price := f1200_5 |};
    {| model := lit "M101"; material_description := lit "Guard";
       shrm := []; home := [];
       stock := 0; used_spares := 0; price := Examples.f7 |};
    {| model := lit "M102"; material_description := lit "Motor";
       shrm := []; home := [];
       stock := 0; used_spares := 2; price := F64.zero |} ].

Definition showroom_records : list StockRecord :=
  [ {| model := lit "M100"; material_description := lit "Blade";
       shrm := lit "N-A"; home := [];
       stock := 0; used_spares := 0; price := F64.zero |};
    {| model := lit "M101"; material_description := lit "Guard";
       shrm := lit "N-A"; home := [];
       stock := 0; used_spares := 0; price := F64.zero |};
    {| model := lit "nan"; material_description := lit "Motor";
       shrm := lit "A3"; home := [];
       stock := 0; used_spares := 0; price := F64.zero |} ].

End SheetSamples.

(* ------------------------------------------------------------------ *)
(** ** Tab 2: the rerun of the table path and the exported sheet *)

Module Rerun.
Import Normalizer Search Cart.

(** [new_rows]: the records of [edited_df] without [line_total]. *)
Definition new_rows (edits : nat -> edit) (req_rows : list RequestLine)
  : result (list RequestLine) :=
  do df <- req_df req_rows;
  do ed <- edited_df edits df;
  Ok (to_records ed).

(** [new_rows != req_rows]: whether the run stores [new_rows] and calls
    [st.rerun()]. *)
Definition table_reruns (edits : nat -> edit) (req_rows : list RequestLine)
  : result bool :=
  do nr <- new_rows edits req_rows;
  Ok (negb (rows_eqb nr req_rows)).

(** *** The sheet behind the download button *)

(** A row of [pd.DataFrame(updated_rows)] with [line_total] added.  The
    [qty] column is an integer column when every quantity is an integer
    of the [int64] range; other lists are left aside. *)
Definition out_row (l : RequestLine) : option ReqRow :=
  match qty l with
  | Some q =>
      if in_int64 q then
        Some {| rr_item := item l; rr_qty := q;
                rr_line_total := F64.mul (price (item l)) (float_of_int64 q) |}
      else None
  | None => None
  end.

Fixpoint out_rows (updated_rows : list RequestLine) : option (list ReqRow) :=
  match updated_rows with
  | [] => Some []
  | l :: t =>
      match out_row l, out_rows t with
      | Some r, Some rs => Some (r :: rs)
      | _, _ => None
      end
  end.

(** [out_df] in the card mode, from the request list before the run. *)
Definition out_df_card (entered : nat -> option Z)
    (req_rows : list RequestLine) : result (option (list ReqRow)) :=
  do df <- req_df req_rows;
  do updated_rows <- card_rows entered df;
  Ok (out_rows updated_rows).

(** [out_df] in the table mode: a copy of [edited_df]. *)
Definition out_df_table (edits : nat -> edit) (req_rows : list RequestLine)
  : result (list ReqRow) :=
  do df <- req_df req_rows;
  edited_df edits df.

End Rerun.

(** Request lists whose prices are numbers. *)
Module Priced.

Definition no_nan_price (rows : list Search.RequestLine) : Prop :=
  Forall (fun l => F64.is_nan (Normalizer.price (Search.item l)) = false) rows.

Definition some_nan_price (rows : list Search.RequestLine) : Prop :=
  Exists (fun l => F64.is_nan (Normalizer.price (Search.item l)) = true) rows.

(** A part whose price cell held the text [nan]. *)
Definition washer : Normalizer.StockRecord :=
  {| Normalizer.model := lit "W7"; Normalizer.material_description := lit "Washer";
     Normalizer.shrm := lit "1"; Normalizer.home := lit "0";
     Normalizer.stock := 1; Normalizer.used_spares := 0;
     Normalizer.price := S754_nan |}.

Definition washer_list : list Search.RequestLine :=
  [ {| Search.item := Examples.blade; Search.qty := Some 2 |};
    {| Search.item := washer; Search.qty := Some 1 |} ].

Definition blade_list : list Search.RequestLine :=
  [ {| Search.item := Examples.blade; Search.qty := Some 2 |};
    {| Search.item := Examples.guard; Search.qty := None |} ].

(** Three blades entered on the first line. *)
Definition three_first : nat -> option Z :=
  fun i => match i with O => Some 3 | _ => None end.





(** The edit of the table that puts the value entered on a card. *)
Definition table_edit (e : option Z) : Cart.edit :=
  match e with
  | Some q => Cart.Put q
  | None => Cart.Keep
  end.

End Priced.

(* ================================================================== *)
(** * Properties *)

(** ** Text *)

Module TextFacts.
Import Text Spec.

Lemma char_eqb_eq (a b : ascii) : char_eqb a b = true <-> a = b.
Proof. unfold char_eqb. apply Ascii.eqb_eq. Qed.

Lemma char_eqb_refl (a : ascii) : char_eqb a a = true.
Proof. apply char_eqb_eq. reflexivity. Qed.

Lemma str_eqb_eq (a b : str) : str_eqb a b = true <-> a = b.
Proof.
  revert b. induction a as [|x a IH]; intros [|y b]; simpl;
    try (split; [discriminate | discriminate]); try tauto.
  rewrite andb_true_iff, char_eqb_eq, IH.
  split; [intros [-> ->]; reflexivity | intros H; inversion H; auto].
Qed.

Lemma startswith_spec (p s : str) :
  startswith p s = true <-> exists t, s = p ++ t.
Proof.
  revert s. induction p as [|x p IH]; intros s; simpl.
  - split; [intros _; exists s; reflexivity | reflexivity].
  - destruct s as [|y s].
    + split; [discriminate | intros [t Ht]; discriminate].
    + rewrite andb_true_iff, char_eqb_eq, IH. split.
      * intros [-> [t ->]]. exists t. reflexivity.
      * intros [t Ht]. inversion Ht; subst. split; [reflexivity | eauto].
Qed.

Lemma startswith_drop (p s : str) :
  startswith p s = true -> s = p ++ drop (length p) s.
Proof.
  intros H. apply startswith_spec in H as [t ->].
  rewrite drop_app_length. reflexivity.
Qed.

Lemma str_in_spec (p s : str) : str_in p s = true <-> occurs p s.
Proof.
  unfold occurs. induction s as [|c s IH].
  - cbn [str_in]. rewrite orb_false_r, startswith_spec. split.
    + intros [t Ht]. exists [], t. exact Ht.
    + intros [a [b H]]. destruct a; [eauto | discriminate].
  - cbn [str_in]. rewrite orb_true_iff, startswith_spec, IH. split.
    + intros [[t Ht] | [a [b Hab]]].
      * exists [], t. exact Ht.
      * exists (c :: a), b. rewrite Hab. reflexivity.
    + intros [a [b H]]. destruct a as [|x a].
      * left. exists b. exact H.
      * right. inversion H; subst. exists a, b. reflexivity.
Qed.

Lemma partition_none (sep s : str) :
  partition sep s = None <-> str_in sep s = false.
Proof.
  induction s as [|c s IH]; cbn [partition str_in].
  - destruct (startswith sep []); simpl; split; congruence.
  - destruct (startswith sep (c :: s)); simpl; [split; congruence |].
    rewrite <- IH. destruct (partition sep s) as [[a b]|]; split; congruence.
Qed.

Lemma partition_first (sep s a b : str) :
  partition sep s = Some (a, b) -> first_split sep s a b.
Proof.
  unfold first_split. revert a b.
  induction s as [|c s IH]; intros a b; cbn [partition].
  - destruct (startswith sep []) eqn:E; [|discriminate].
    intros H. inversion H; subst. split.
    + apply (startswith_drop sep []). exact E.
    + intros; simpl; lia.
  - destruct (startswith sep (c :: s)) eqn:E.
    + intros H. inversion H; subst. split.
      * apply (startswith_drop sep (c :: s)). exact E.
      * intros; simpl; lia.
    + destruct (partition sep s) as [[a0 b0]|] eqn:P; [|discriminate].
      intros H. inversion H; subst. destruct (IH a0 b eq_refl) as [Hs Hmin].
      split; [rewrite Hs; reflexivity |].
      intros a' b' H'. destruct a' as [|x a'].
      * assert (startswith sep (c :: s) = true) as F
          by (apply startswith_spec; exists b'; exact H').
        congruence.
      * inversion H'; subst x. simpl.
        apply le_n_S, (Hmin a' b'). assumption.
Qed.

(** The split is there exactly when the separator is. *)
Lemma split1_in (sep s : str) :
  str_in sep s = true ->
  exists a b, split1 sep s = [a; b] /\ first_split sep s a b.
Proof.
  intros H. unfold split1.
  destruct (partition sep s) as [[a b]|] eqn:P.
  - exists a, b. split; [reflexivity | apply partition_first; exact P].
  - apply partition_none in P. congruence.
Qed.

Lemma first_split_unique (sep q a b a' b' : str) :
  first_split sep q a b -> first_split sep q a' b' -> a = a' /\ b = b'.
Proof.
  intros [H1 M1] [H2 M2].
  pose proof (M1 _ _ H2). pose proof (M2 _ _ H1).
  assert (length a = length a') as L by lia.
  rewrite H1 in H2. apply app_inj_1 in H2 as [-> H2]; [|exact L].
  apply app_inv_head in H2. auto.
Qed.

End TextFacts.

(** ** The regular-expression fragment on escaped patterns *)

Module RegexFacts.
Import Text Regex Spec TextFacts.

Lemma special_not_alnum (c : ascii) :
  is_special c = true -> is_alnum c = false.
Proof.
  destruct c as [[] [] [] [] [] [] [] []]; vm_compute; congruence.
Qed.

Lemma plain_not_meta (c : ascii) :
  is_special c = false ->
  N.eqb (code c) 92 = false /\ N.eqb (code c) 46 = false
  /\ N.eqb (code c) 94 = false /\ is_meta c = false.
Proof.
  destruct c as [[] [] [] [] [] [] [] []]; vm_compute;
    intros H; repeat split; congruence.
Qed.

(** One character of an escaped pattern reads back as that literal. *)
Lemma parse_escape_char (c : ascii) (rest : str) (l : list atom) :
  parse rest = Some l ->
  parse (if is_special c then backslash :: c :: rest else c :: rest)
  = Some (Lit c :: l).
Proof.
  intros H. destruct (is_special c) eqn:E.
  - cbn [parse]. change (N.eqb (code backslash) 92) with true. cbv iota.
    rewrite (special_not_alnum c E), H. reflexivity.
  - destruct (plain_not_meta c E) as (E1 & E2 & E3 & E4).
    cbn [parse]. rewrite E1, E2, E3, E4, H. reflexivity.
Qed.

(** [re.escape] leaves no metacharacter with a meaning of its own: the
    pattern is the sequence of the literal characters of [q]. *)
Lemma parse_escape (q : str) : parse (escape q) = Some (map Lit q).
Proof.
  induction q as [|c q IH]; [reflexivity |].
  cbn [escape map].
  pose proof (parse_escape_char c (escape q) (map Lit q) IH) as H.
  destruct (is_special c); exact H.
Qed.

Lemma parse_caret_escape (q : str) :
  parse (Search.caret :: escape q) = Some (Bol :: map Lit q).
Proof.
  change (Search.caret :: escape q) with (ascii_of_N 94 :: escape q).
  cbn [parse]. change (N.eqb (code (ascii_of_N 94)) 92) with false.
  change (N.eqb (code (ascii_of_N 94)) 46) with false.
  change (N.eqb (code (ascii_of_N 94)) 94) with true.
  cbv iota. rewrite parse_escape. reflexivity.
Qed.

Lemma ci_eqb_eq (a b : ascii) :
  ci_eqb a b = true <-> lower_char a = lower_char b.
Proof. unfold ci_eqb. apply char_eqb_eq. Qed.

Lemma match_here_lits (q s : str) (at_start : bool) :
  match_here (map Lit q) at_start s = true <-> ci_prefix q s.
Proof.
  unfold ci_prefix. revert s at_start.
  induction q as [|c q IH]; intros s at_start; cbn [map match_here].
  - split; [intros _; exists [], s; split; reflexivity | reflexivity].
  - destruct s as [|d s].
    + split; [discriminate |].
      intros [mid [post [H L]]]. destruct mid; discriminate.
    + rewrite andb_true_iff, ci_eqb_eq, IH. split.
      * intros [E [mid [post [-> L]]]]. exists (d :: mid), post.
        split; [reflexivity |]. cbn. rewrite <- E.
        unfold lower in L. rewrite L. reflexivity.
      * intros [mid [post [H L]]]. destruct mid as [|x mid]; [discriminate |].
        cbn in H, L. injection H as Hx Hs. injection L as Lx Ls.
        split; [congruence |]. exists mid, post. split; [exact Hs | exact Ls].
Qed.

Lemma search_from_lits (q s : str) (at_start : bool) :
  search_from (map Lit q) at_start s = true <-> ci_contains q s.
Proof.
  unfold ci_contains. revert at_start.
  induction s as [|d s IH]; intros at_start; cbn [search_from].
  - rewrite orb_false_r, match_here_lits. split.
    + intros [mid [post [H L]]]. exists [], mid, post. auto.
    + intros [pre [mid [post [H L]]]].
      destruct pre; [|discriminate]. exists mid, post. auto.
  - rewrite orb_true_iff, match_here_lits, IH. split.
    + intros [[mid [post [H L]]] | [pre [mid [post [H L]]]]].
      * exists [], mid, post. auto.
      * exists (d :: pre), mid, post. rewrite H. auto.
    + intros [pre [mid [post [H L]]]]. destruct pre as [|x pre].
      * left. exists mid, post. auto.
      * right. inversion H; subst. exists pre, mid, post. auto.
Qed.

(** [str.contains(re.escape(q), case=False)] is the case-insensitive
    literal containment test. *)
Lemma str_contains_escape (q s : str) :
  exists v, str_contains (escape q) s = Some v
            /\ (v = true <-> ci_contains q s).
Proof.
  unfold str_contains. rewrite parse_escape. cbn [option_map].
  eexists. split; [reflexivity | apply search_from_lits].
Qed.

(** [str.match("^" + re.escape(q), case=False)] is the case-insensitive
    literal prefix test. *)
Lemma str_match_caret_escape (q s : str) :
  exists v, str_match (Search.caret :: escape q) s = Some v
            /\ (v = true <-> ci_prefix q s).
Proof.
  unfold str_match. rewrite parse_caret_escape. cbn [option_map match_here].
  eexists. split; [reflexivity |]. rewrite andb_true_l.
  apply match_here_lits.
Qed.

(** Without the escape a metacharacter keeps its meaning. *)
Example unescaped_dot_is_wildcard :
  str_contains (lit "a.c") (lit "xxAbCyy") = Some true
  /\ str_contains (escape (lit "a.c")) (lit "xxAbCyy") = Some false
  /\ str_contains (escape (lit "a.c")) (lit "xxA.Cyy") = Some true.
Proof. repeat split; reflexivity. Qed.

End RegexFacts.

(** ** Tab 1: what the two masks decide *)

Module SearchFacts.
Import Text Regex Normalizer Search Spec TextFacts RegexFacts.

Lemma both_parts_spec (q a b : str) (r : StockRecord) :
  split1 SEP q = [a; b] ->
  exists v, both_parts q r = Some v
    /\ (v = true <->
        ci_contains a (model r) /\ ci_contains b (material_description r)).
Proof.
  intros E. unfold both_parts. rewrite E.
  destruct (str_contains_escape a (model r)) as [va [Ea Ha]].
  destruct (str_contains_escape b (material_description r)) as [vb [Eb Hb]].
  rewrite Ea, Eb. cbn [and_mask]. eexists. split; [reflexivity |].
  rewrite andb_true_iff, Ha, Hb. reflexivity.
Qed.

Lemma first_split_occurs (sep q a b : str) :
  first_split sep q a b -> occurs sep q.
Proof. intros [H _]. exists a, b. exact H. Qed.

(** C1.  The live filter.  Whatever the query [q] and the row [r], the
    mask has a verdict [v].  When [q] contains the separator, cutting [q]
    at its first occurrence into [a] and [b], the row is kept iff its model
    contains [a] and its description contains [b]; when it does not, the
    row is kept iff its model or its description contains [q].  Both
    containments are case-insensitive and literal: no character of the
    query acts as a pattern. *)
Theorem live_filter_literal (q : str) (r : StockRecord) :
  exists v, filter_mask q r = Some v
    /\ (occurs SEP q -> exists a b, first_split SEP q a b)
    /\ (forall a b, first_split SEP q a b ->
          (v = true <-> ci_contains a (model r)
                        /\ ci_contains b (material_description r)))
    /\ (~ occurs SEP q ->
          (v = true <-> ci_contains q (model r)
                        \/ ci_contains q (material_description r))).
Proof.
  unfold filter_mask. destruct (str_in SEP q) eqn:E.
  - destruct (split1_in SEP q E) as [a [b [S F]]].
    destruct (both_parts_spec q a b r S) as [v [Ev Hv]].
    exists v. split; [exact Ev |]. split; [eauto |]. split.
    + intros a' b' F'.
      destruct (first_split_unique _ _ _ _ _ _ F F') as [<- <-]. exact Hv.
    + intros N. exfalso. apply N. apply str_in_spec. exact E.
  - destruct (str_contains_escape q (model r)) as [vm [Em Hm]].
    destruct (str_contains_escape q (material_description r))
      as [vd [Ed Hd]].
    rewrite Em, Ed. cbn [or_mask]. eexists. split; [reflexivity |].
    assert (~ occurs SEP q) as N
      by (intros O; apply str_in_spec in O; congruence).
    split; [intros O; contradiction |]. split.
    + intros a b F. exfalso. apply N. eapply first_split_occurs. exact F.
    + intros _. rewrite orb_true_iff, Hm, Hd. reflexivity.
Qed.

(** C3.  The add-to-list resolution on a query without the separator: a
    row counts as a match iff its model starts with [q] or its description
    contains [q], case-insensitively and literally.  So a row whose model
    contains [q] but does not start with it, and whose description does
    not contain [q], is kept by the live filter and is no match here. *)
Theorem add_resolution_prefix (q : str) (r : StockRecord) :
  str_in SEP q = false ->
  exists v, hits_mask q r = Some v
    /\ (v = true <-> ci_prefix q (model r)
                     \/ ci_contains q (material_description r))
    /\ (ci_contains q (model r) -> ~ ci_prefix q (model r) ->
        ~ ci_contains q (material_description r) ->
        filter_mask q r = Some true /\ v = false).
Proof.
  intros E. unfold hits_mask, filter_mask. rewrite E.
  destruct (str_match_caret_escape q (model r)) as [vp [Ep Hp]].
  destruct (str_contains_escape q (model r)) as [vm [Em Hm]].
  destruct (str_contains_escape q (material_description r)) as [vd [Ed Hd]].
  rewrite Ep, Em, Ed. cbn [or_mask]. eexists. split; [reflexivity |]. split.
  - rewrite orb_true_iff, Hp, Hd. reflexivity.
  - intros Cm Np Nd. split.
    + apply Hm in Cm. rewrite Cm. reflexivity.
    + destruct vp; [exfalso; apply Np, Hp; reflexivity |].
      destruct vd; [exfalso; apply Nd, Hd; reflexivity |]. reflexivity.
Qed.

Lemma add_resolution_prefix_witness :
  exists v, hits_mask (lit "100") Examples.blade = Some v
    /\ (v = true <-> ci_prefix (lit "100") (model Examples.blade)
                     \/ ci_contains (lit "100")
                          (material_description Examples.blade))
    /\ (ci_contains (lit "100") (model Examples.blade) ->
        ~ ci_prefix (lit "100") (model Examples.blade) ->
        ~ ci_contains (lit "100") (material_description Examples.blade) ->
        filter_mask (lit "100") Examples.blade = Some true /\ v = false).
Proof. exact (add_resolution_prefix (lit "100") Examples.blade eq_refl). Defined.

(** The row the two policies disagree on, evaluated. *)
Example prefix_policy_disagrees :
  filter_mask (lit "100") Examples.blade = Some true
  /\ hits_mask (lit "100") Examples.blade = Some false.
Proof. split; reflexivity. Qed.

(** With the separator the two masks are the same one. *)
Lemma hits_mask_with_separator (q : str) (r : StockRecord) :
  str_in SEP q = true -> hits_mask q r = filter_mask q r.
Proof. intros E. unfold hits_mask, filter_mask. rewrite E. reflexivity. Qed.

(** Both masks always have a verdict, so the selections are defined. *)
Lemma both_parts_total (q : str) (r : StockRecord) :
  str_in SEP q = true -> exists v, both_parts q r = Some v.
Proof.
  intros E. destruct (split1_in SEP q E) as [a [b [S _]]].
  destruct (both_parts_spec q a b r S) as [v [H _]]. eauto.
Qed.

Lemma hits_mask_total (q : str) (r : StockRecord) :
  exists v, hits_mask q r = Some v.
Proof.
  unfold hits_mask. destruct (str_in SEP q) eqn:E.
  - apply both_parts_total. exact E.
  - destruct (str_match_caret_escape q (model r)) as [vp [-> _]].
    destruct (str_contains_escape q (material_description r)) as [vd [-> _]].
    cbn. eauto.
Qed.

Lemma filter_mask_total (q : str) (r : StockRecord) :
  exists v, filter_mask q r = Some v.
Proof.
  unfold filter_mask. destruct (str_in SEP q) eqn:E.
  - apply both_parts_total. exact E.
  - destruct (str_contains_escape q (model r)) as [vm [-> _]].
    destruct (str_contains_escape q (material_description r)) as [vd [-> _]].
    cbn. eauto.
Qed.

Lemma select_total {A} (mask : A -> option bool) (df : list A) :
  (forall r, exists v, mask r = Some v) ->
  exists l, select mask df = Some l.
Proof.
  intros T. induction df as [|r df [l IH]]; cbn [select]; [eauto |].
  destruct (T r) as [v ->]. rewrite IH. eauto.
Qed.

Lemma q_display_id (q : str) : q_display q = q.
Proof.
  unfold q_display. destruct (str_in SEP q) eqn:E; [|reflexivity].
  destruct (split1_in SEP q E) as [a [b [-> [H _]]]].
  rewrite H. reflexivity.
Qed.

End SearchFacts.

(** ** Tab 1: committing a query to the request list *)

Module AddFacts.
Import Text Regex Normalizer Search Spec Matching TextFacts SearchFacts.

Lemma select_hits (q : str) (df : list StockRecord) :
  select (hits_mask q) df = Some (hits q df).
Proof.
  unfold hits. induction df as [|r df IH]; [reflexivity |].
  cbn [select List.filter]. rewrite IH. unfold is_hit.
  destruct (hits_mask_total q r) as [[] ->]; reflexivity.
Qed.

Lemma iloc_in_range {A} (l : list A) (i : Z) :
  0 <= i < Z.of_nat (length l) ->
  exists a, l !! Z.to_nat i = Some a /\ iloc l i = Ok a.
Proof.
  intros [H0 H1]. unfold iloc.
  destruct (Z.ltb_spec i 0) as [?|_]; [lia |].
  destruct (Z.leb_spec 0 i) as [_|?]; [|lia].
  destruct (Z.ltb_spec i (Z.of_nat (length l))) as [_|?]; [|lia].
  cbn [andb].
  destruct (l !! Z.to_nat i) as [a|] eqn:E; [eauto |].
  apply lookup_ge_None in E. lia.
Qed.

(** C2.  What one run of the add flow does to the request list, for a
    non-empty query [q], [found] being the rows the resolution counts as
    matches.  In the run of a click on the add button: with no match the
    list is unchanged and the message names the query; with one match the
    list gets that row as one new last line with quantity 1.  With several
    matches the list is unchanged in every run, whichever button the run
    comes from and whatever index is chosen: in the run of a click on the
    confirm button the add button reads [False], so the block that holds
    the confirm button is skipped.  A run that does not come from the add
    button changes nothing and shows nothing.  The claim has the row at
    the chosen index appended once the index is supplied. *)
Theorem add_to_list_by_run (df : list StockRecord) (typed : str)
    (w : add_widgets) (rows : list RequestLine) :
  nonempty (search_value typed) = true ->
  let q := search_value typed in
  let found := hits q df in
  (clicked w = Some AddToList -> found = [] ->
     add_to_list df typed w rows
     = Some (Ok (rows, [Error (lit "Part not found: " ++ q)])))
  /\ (clicked w = Some AddToList -> forall r, found = [r] ->
        add_to_list df typed w rows
        = Some (Ok (rows ++ [new_line r],
                    [Success (lit "Added: " ++ model r)])))
  /\ ((1 < length found)%nat ->
        exists shown, add_to_list df typed w rows = Some (Ok (rows, shown)))
  /\ (clicked w <> Some AddToList ->
        add_to_list df typed w rows = Some (Ok (rows, []))).
Proof.
  intros Hq q found. unfold add_to_list, add_button, confirm_button.
  cbv zeta. rewrite Hq. fold q.
  destruct (clicked w) as [[|]|] eqn:C; cbn [andb].
  - rewrite select_hits. fold found. split; [|split; [|split]].
    + intros _ ->. rewrite q_display_id. reflexivity.
    + intros _ r ->. reflexivity.
    + intros Hn. destruct found as [|r1 [|r2 rest]];
        [cbn in Hn; lia | cbn in Hn; lia |]. eexists. reflexivity.
    + intros N. contradiction N. reflexivity.
  - split; [discriminate |]. split; [discriminate |].
    split; [intros _; eexists |]; reflexivity.
  - split; [discriminate |]. split; [discriminate |].
    split; [intros _; eexists |]; reflexivity.
Qed.

(** The sample table: one match, none, and two matches, in the run of
    the add click and in the run of the confirm click with index 1. *)
Lemma add_to_list_by_run_witness :
  add_to_list Examples.table (lit " M100 - Blade ")
    (Examples.pressed AddToList 0) []
  = Some (Ok ([new_line Examples.blade], [Success (lit "Added: M100")]))
  /\ add_to_list Examples.table (lit "M9") (Examples.pressed AddToList 0) []
     = Some (Ok ([], [Error (lit "Part not found: M9")]))
  /\ (exists shown,
        add_to_list Examples.table (lit "m1") (Examples.pressed AddToList 1) []
        = Some (Ok ([], shown)))
  /\ (exists shown,
        add_to_list Examples.table (lit "m1")
          (Examples.pressed ConfirmAdd 1) []
        = Some (Ok ([], shown))).
Proof.
  pose proof (add_to_list_by_run Examples.table (lit " M100 - Blade ")
                (Examples.pressed AddToList 0) [] eq_refl) as (_ & H1 & _).
  pose proof (add_to_list_by_run Examples.table (lit "M9")
                (Examples.pressed AddToList 0) [] eq_refl) as (H0 & _).
  pose proof (add_to_list_by_run Examples.table (lit "m1")
                (Examples.pressed AddToList 1) [] eq_refl) as (_ & _ & Ha & _).
  pose proof (add_to_list_by_run Examples.table (lit "m1")
                (Examples.pressed ConfirmAdd 1) [] eq_refl) as (_ & _ & Hc & _).
  split; [apply (H1 eq_refl Examples.blade); reflexivity |].
  split; [apply (H0 eq_refl); reflexivity |].
  split; [apply Ha | apply Hc]; vm_compute; lia.
Defined.

(** The second run of the failing input, evaluated: two matches, index 1
    chosen, the confirm button clicked; nothing is appended and nothing is
    shown. *)
Example confirm_click_is_lost :
  hits (lit "m1") Examples.table = [Examples.blade; Examples.guard]
  /\ add_to_list Examples.table (lit "m1") (Examples.pressed ConfirmAdd 1) []
     = Some (Ok ([], [])).
Proof. split; reflexivity. Qed.

End AddFacts.

(** ** Column resolver *)

Module ResolverFacts.
Import Text Resolver Spec TextFacts.

Lemma is_space_lower (c : ascii) : is_space (lower_char c) = is_space c.
Proof. destruct c as [[] [] [] [] [] [] [] []]; reflexivity. Qed.

Lemma lstrip_lower (s : str) : lstrip (lower s) = lower (lstrip s).
Proof.
  induction s as [|c s IH]; [reflexivity |].
  cbn [lower map lstrip]. rewrite is_space_lower.
  destruct (is_space c); [exact IH | reflexivity].
Qed.

Lemma lower_rev (s : str) : lower (rev s) = rev (lower s).
Proof. unfold lower. apply map_rev. Qed.

Lemma strip_lower (s : str) : strip (lower s) = lower (strip s).
Proof.
  unfold strip, rstrip.
  rewrite lstrip_lower, <- lower_rev, lstrip_lower, lower_rev. reflexivity.
Qed.

(** The order of lower-casing and stripping does not matter: the code
    normalises headers by the rule of the specification. *)
Lemma norm_is_norm_spec (s : str) : _norm s = norm_spec s.
Proof. unfold _norm, norm_spec. rewrite strip_lower. reflexivity. Qed.

Section NormToActual.
Let step := fun (m : gmap (list ascii) (list ascii)) (c : str) =>
              <[_norm c := c]> m.

Lemma fold_lookup_from (cols : list str) m (n a : str) :
  fold_left step cols m !! n = Some a ->
  (In a cols /\ _norm a = n) \/ m !! n = Some a.
Proof.
  revert m. induction cols as [|c cols IH]; intros m; cbn [fold_left].
  - auto.
  - intros H. destruct (IH _ H) as [[I E] | L].
    + left. split; [right; exact I | exact E].
    + unfold step in L. destruct (decide (_norm c = n)) as [<- | N].
      * rewrite lookup_insert_eq in L. injection L as <-.
        left. split; [left; reflexivity | reflexivity].
      * rewrite lookup_insert_ne in L by exact N. auto.
Qed.

Lemma fold_lookup_keeps (cols : list str) m (n : str) :
  is_Some (m !! n) -> is_Some (fold_left step cols m !! n).
Proof.
  revert m. induction cols as [|c cols IH]; intros m; cbn [fold_left].
  - auto.
  - intros H. apply IH. unfold step.
    destruct (decide (_norm c = n)) as [<- | N].
    + rewrite lookup_insert_eq. eauto.
    + rewrite lookup_insert_ne by exact N. exact H.
Qed.

Lemma fold_lookup_some (cols : list str) m (h : str) :
  In h cols -> is_Some (fold_left step cols m !! _norm h).
Proof.
  revert m. induction cols as [|c cols IH]; intros m; cbn [fold_left In].
  - tauto.
  - intros [-> | I].
    + apply fold_lookup_keeps. unfold step.
      rewrite lookup_insert_eq. eauto.
    + apply IH. exact I.
Qed.

(** A normal form is a key of [norm_to_actual] exactly when some header
    has it, and the value stored is such a header. *)
Lemma norm_to_actual_lookup (cols : list str) (n a : str) :
  norm_to_actual cols !! n = Some a -> In a cols /\ _norm a = n.
Proof.
  intros H. apply fold_lookup_from in H as [H | H]; [exact H |].
  rewrite lookup_empty in H. discriminate.
Qed.

Lemma norm_to_actual_some (cols : list str) (h : str) :
  In h cols -> is_Some (norm_to_actual cols !! _norm h).
Proof. apply fold_lookup_some. Qed.
End NormToActual.

Lemma first_match_some nta (options : list str) (a : str) :
  first_match nta options = Some a ->
  exists opt, In opt options /\ nta !! _norm opt = Some a.
Proof.
  induction options as [|o options IH]; cbn [first_match]; [discriminate |].
  destruct (nta !! _norm o) as [x|] eqn:E.
  - intros H. injection H as <-. exists o. split; [left; reflexivity | exact E].
  - intros H. destruct (IH H) as [opt [I L]]. exists opt.
    split; [right; exact I | exact L].
Qed.

Lemma first_match_none nta (options : list str) :
  first_match nta options = None ->
  forall opt, In opt options -> nta !! _norm opt = None.
Proof.
  induction options as [|o options IH]; cbn [first_match In]; [tauto |].
  destruct (nta !! _norm o) as [x|] eqn:E; [discriminate |].
  intros H opt [<- | I]; [exact E | apply IH; assumption].
Qed.

(** Resolution of one canonical field from the headers. *)
Lemma first_match_resolvable (key : str) (cols : list str) :
  match first_match (norm_to_actual cols) (candidates_of key CANDIDATES) with
  | Some a => In a cols /\ alias_header key a
  | None => ~ resolvable key cols
  end.
Proof.
  destruct (first_match _ _) as [a|] eqn:E.
  - apply first_match_some in E as [opt [I L]].
    apply norm_to_actual_lookup in L as [Ia En].
    split; [exact Ia |]. exists opt. split; [exact I |].
    rewrite <- !norm_is_norm_spec. exact En.
  - intros [h [Ih [opt [Io En]]]].
    rewrite <- !norm_is_norm_spec in En.
    pose proof (first_match_none _ _ E opt Io) as N.
    destruct (norm_to_actual_some cols h Ih) as [x Hx].
    rewrite En in Hx. congruence.
Qed.

Lemma resolve_other nta m (entry : str * list str) (k : str) :
  fst entry <> k -> resolve nta m entry !! k = m !! k.
Proof.
  intros N. unfold resolve. destruct (first_match nta (snd entry)); [|reflexivity].
  apply lookup_insert_ne. exact N.
Qed.

Lemma resolve_same nta m (k : str) (options : list str) :
  m !! k = None ->
  resolve nta m (k, options) !! k = first_match nta options.
Proof.
  intros E. unfold resolve. cbn [fst snd].
  destruct (first_match nta options); [apply lookup_insert_eq | exact E].
Qed.

Ltac other_key := apply resolve_other; cbn [fst]; vm_compute; discriminate.

(** The column map at the two mandatory keys. *)
Lemma colmap_model nta :
  fold_left (resolve nta) CANDIDATES ∅ !! k_model
  = first_match nta (candidates_of k_model CANDIDATES).
Proof.
  unfold CANDIDATES. cbn [fold_left].
  do 6 (etransitivity; [other_key |]).
  apply resolve_same. apply lookup_empty.
Qed.

Lemma colmap_description nta :
  fold_left (resolve nta) CANDIDATES ∅ !! k_material_description
  = first_match nta (candidates_of k_material_description CANDIDATES).
Proof.
  unfold CANDIDATES. cbn [fold_left].
  do 5 (etransitivity; [other_key |]).
  apply resolve_same.
  etransitivity; [other_key | apply lookup_empty].
Qed.

Lemma message_names_aliases (a : str) :
  In a (candidates_of k_model CANDIDATES
        ++ candidates_of k_material_description CANDIDATES) ->
  occurs a schema_message.
Proof.
  intros H. apply str_in_spec.
  cbn in H. repeat (destruct H as [<- | H]; [vm_compute; reflexivity |]).
  destruct H.
Qed.

(** C4.  If some header is an alias of [model] and some header is an alias
    of [material_description] (after lower-casing, stripping and dropping
    every character but lowercase letters and digits), the column map is
    built and holds a header of the sheet for each of the two fields, itself
    such an alias; if either field has no such header, a [ValueError] is
    raised whose message lists the accepted aliases of both fields. *)
Theorem build_column_map_outcome (cols : list str) :
  (resolvable k_model cols /\ resolvable k_material_description cols ->
     exists colmap hm hd,
       build_column_map cols = Ok colmap
       /\ colmap !! k_model = Some hm
       /\ colmap !! k_material_description = Some hd
       /\ In hm cols /\ alias_header k_model hm
       /\ In hd cols /\ alias_header k_material_description hd)
  /\ (~ resolvable k_model cols \/ ~ resolvable k_material_description cols ->
        build_column_map cols = Raise (ValueError schema_message)
        /\ forall a,
             In a (candidates_of k_model CANDIDATES
                   ++ candidates_of k_material_description CANDIDATES) ->
             occurs a schema_message).
Proof.
  pose proof (first_match_resolvable k_model cols) as Hm.
  pose proof (first_match_resolvable k_material_description cols) as Hd.
  pose proof (colmap_model (norm_to_actual cols)) as Lm.
  pose proof (colmap_description (norm_to_actual cols)) as Ld.
  unfold build_column_map, has_key. cbv zeta.
  rewrite Lm, Ld.
  destruct (first_match _ (candidates_of k_model CANDIDATES)) as [hm|];
    destruct (first_match _ (candidates_of k_material_description CANDIDATES))
      as [hd|].
  - rewrite !bool_decide_eq_true_2 by eauto. cbn [negb orb]. split.
    + intros _. destruct Hm, Hd. do 3 eexists.
      repeat split; [exact Lm | exact Ld | | | | ]; assumption.
    + intros [N | N]; exfalso; apply N; [exists hm | exists hd]; assumption.
  - rewrite (bool_decide_eq_false_2 (is_Some None)) by (intros [? ?]; discriminate).
    rewrite orb_true_r. split.
    + intros [_ R]. contradiction.
    + intros _. split; [reflexivity | exact message_names_aliases].
  - rewrite (bool_decide_eq_false_2 (is_Some None)) by (intros [? ?]; discriminate).
    cbn [negb orb]. split.
    + intros [R _]. contradiction.
    + intros _. split; [reflexivity | exact message_names_aliases].
  - rewrite (bool_decide_eq_false_2 (is_Some None)) by (intros [? ?]; discriminate).
    cbn [negb orb]. split.
    + intros [R _]. contradiction.
    + intros _. split; [reflexivity | exact message_names_aliases].
Qed.

Lemma build_column_map_outcome_witness :
  (exists colmap hm hd,
     build_column_map Examples.headers_ok = Ok colmap
     /\ colmap !! k_model = Some hm
     /\ colmap !! k_material_description = Some hd
     /\ In hm Examples.headers_ok /\ alias_header k_model hm
     /\ In hd Examples.headers_ok
     /\ alias_header k_material_description hd)
  /\ build_column_map Examples.headers_bad = Raise (ValueError schema_message).
Proof.
  split.
  - apply (build_column_map_outcome Examples.headers_ok). split.
    + exists (lit " Part No."). split; [left; reflexivity |].
      exists (lit "partno"). split; [cbn; tauto | reflexivity].
    + exists (lit "Item-Desc"). split; [right; left; reflexivity |].
      exists (lit "itemdesc"). split; [cbn; tauto | reflexivity].
  - apply (build_column_map_outcome Examples.headers_bad). right.
    intros [h [Ih [a [Ia E]]]].
    cbn in Ih, Ia.
    repeat (destruct Ih as [<- | Ih];
            [repeat (destruct Ia as [<- | Ia]; [vm_compute in E; discriminate |]);
             destruct Ia |]).
    destruct Ih.
Defined.

End ResolverFacts.

(** ** Numeric coercions *)

Module CoercionFacts.
Import Text Cell Spec.

Lemma to_int_null (val : cell) : pd_isna val = true -> to_int val = Ok 0.
Proof. intros H. unfold to_int, to_int_body. rewrite H. reflexivity. Qed.

Lemma to_float_null (val : cell) :
  pd_isna val = true -> to_float val = Ok F64.zero.
Proof. intros H. unfold to_float, to_float_body. rewrite H. reflexivity. Qed.

(** [int(x)] is the truncation of the value of [x]. *)
Lemma float_to_int_trunc (f : F64.float) (n : Z) :
  F64.to_int f = Ok n -> n = trunc_double f.
Proof.
  destruct f as [s | s | | s m e]; cbn; try discriminate.
  - intros H. injection H as <-. reflexivity.
  - intros H. injection H as <-. f_equal.
    destruct (Z.leb_spec 0 e) as [P | N].
    + apply Z.shiftl_mul_pow2. exact P.
    + rewrite <- Z.shiftr_opp_r. apply Z.shiftr_div_pow2. lia.
Qed.

Lemma float_to_int_raise (f : F64.float) (e : exn) :
  F64.to_int f = Raise e -> trunc_double f = 0.
Proof. destruct f; cbn; try discriminate; reflexivity. Qed.

(** C5.  Both coercions return a value for every cell, never an error:
    [to_int] gives an integer, which is 0 for a null cell and whenever the
    text of the cell is no number or reads as a number [int] refuses;
    [to_float] gives a float, which is 0.0 for a null cell and whenever the
    text, commas removed, is no number, and the number read otherwise. *)
Theorem coercions_total (val : cell) :
  (exists n, to_int val = Ok n
     /\ (pd_isna val = true -> n = 0)
     /\ (forall e, F64.of_str (strip (py_str val)) = Raise e -> n = 0)
     /\ (forall f e, F64.of_str (strip (py_str val)) = Ok f ->
                     F64.to_int f = Raise e -> n = 0))
  /\ (exists x, to_float val = Ok x
        /\ (pd_isna val = true -> x = F64.zero)
        /\ (forall e, F64.of_str (remove_char comma (strip (py_str val)))
                      = Raise e -> x = F64.zero)
        /\ (forall f, pd_isna val = false ->
                      F64.of_str (remove_char comma (strip (py_str val)))
                      = Ok f -> x = f)).
Proof.
  split.
  - unfold to_int, to_int_body. destruct (pd_isna val).
    + exists 0. cbn. repeat split; reflexivity.
    + destruct (F64.of_str (strip (py_str val))) as [f | e0]; cbn [bind].
      * destruct (F64.to_int f) as [n | e1] eqn:T; cbn [try_except].
        -- exists n. repeat split; try discriminate.
           intros f' e' H. injection H as <-. congruence.
        -- exists 0. repeat split; reflexivity.
      * exists 0. cbn. repeat split; reflexivity.
  - unfold to_float, to_float_body. destruct (pd_isna val).
    + exists F64.zero. cbn. repeat split; try reflexivity. discriminate.
    + destruct (F64.of_str _) as [f | e0]; cbn [try_except].
      * exists f. repeat split; try discriminate.
        intros f' _ H. injection H as <-. reflexivity.
      * exists F64.zero. repeat split; try reflexivity. discriminate.
Qed.

(** Malformed cells of every kind, and a price with thousands
    separators. *)
Example coercions_on_malformed_cells :
  map to_int [CStr []; CStr (lit "abc"); CNone; CFloat S754_nan;
              CBool true; CObj (lit "<object>"); CStr (lit "1,200");
              CStr (lit "inf"); CStr (lit "nan")]
  = repeat (Ok 0) 9
  /\ map to_float [CStr []; CStr (lit "abc"); CNone; CFloat S754_nan;
                   CObj (lit "<object>")]
     = repeat (Ok F64.zero) 5
  /\ to_float (CStr (lit " 1,200.50 "))
     = Ok (F64.of_literal (F64.LNum false 120050 (-2))).
Proof. repeat split; vm_compute; reflexivity. Qed.

(** [str.strip] removes the separator characters FS, GS, RS and US;
    [float] does not skip them.  So a cell of FS and a digit reads as the
    digit, and the same text behind a comma, which keeps [strip] from
    reaching it, is no number. *)
Example separators_are_no_float_space :
  to_int (CStr [ascii_of_N 28; ascii_of_N 53]) = Ok 5
  /\ F64.of_str [ascii_of_N 28; ascii_of_N 53]
     = Raise (ValueError (lit "could not convert string to float"))
  /\ to_float (CStr [comma; ascii_of_N 28; ascii_of_N 53]) = Ok F64.zero
  /\ to_float (CStr [comma; ascii_of_N 32; ascii_of_N 53])
     = Ok (F64.of_literal (F64.LNum false 5 0)).
Proof. repeat split; vm_compute; reflexivity. Qed.

(** C10, as stated, fails: the text is first rounded to a double, so the
    integer returned is not always the truncation of the number written. *)
Lemma to_int_not_decimal_truncation :
  ~ (forall (val : cell) (neg : bool) (m e : Z),
       F64.read_literal (strip (py_str val)) = Some (F64.LNum neg m e) ->
       to_int val = Ok (trunc_decimal neg m e)).
Proof.
  intros H.
  specialize (H (CStr (lit "9007199254740993")) false 9007199254740993 0
                eq_refl).
  vm_compute in H. discriminate H.
Qed.

(** A number too large for a double is turned into 0. *)
Example to_int_of_huge_number :
  F64.read_literal (lit "1e400") = Some (F64.LNum false 1 400)
  /\ to_int (CStr (lit "1e400")) = Ok 0.
Proof. split; vm_compute; reflexivity. Qed.

(** C10, amended.  For a cell whose stripped text reads as the decimal
    number [(-1)^neg * m * 10^e], [to_int] returns the double nearest to
    that number truncated toward zero, and 0 when that double is infinite;
    text that is not an integer is no parse failure. *)
Theorem to_int_truncates_nearest_double
    (val : cell) (neg : bool) (m e : Z) :
  F64.read_literal (strip (py_str val)) = Some (F64.LNum neg m e) ->
  to_int val = Ok (trunc_double (F64.of_decimal neg m e)).
Proof.
  intros H. unfold to_int, to_int_body.
  assert (pd_isna val = false) as N.
  { destruct val as [| f | | | |]; try reflexivity.
    - vm_compute in H. discriminate H.
    - destruct f; try reflexivity. vm_compute in H. discriminate H. }
  rewrite N. unfold F64.of_str. rewrite H. cbn [bind F64.of_literal].
  destruct (F64.to_int (F64.of_decimal neg m e)) as [n | x] eqn:T;
    cbn [try_except]; f_equal.
  - apply float_to_int_trunc. exact T.
  - symmetry. eapply float_to_int_raise. exact T.
Qed.

Lemma to_int_truncates_nearest_double_witness :
  to_int (CStr (lit "3.9")) = Ok 3
  /\ to_int (CStr (lit " -2.5")) = Ok (-2)
  /\ to_int (CStr (lit "0.99999999999999999999")) = Ok 1.
Proof.
  split; [|split].
  - exact (to_int_truncates_nearest_double
             (CStr (lit "3.9")) false 39 (-1) eq_refl).
  - exact (to_int_truncates_nearest_double
             (CStr (lit " -2.5")) true 25 (-1) eq_refl).
  - exact (to_int_truncates_nearest_double
             (CStr (lit "0.99999999999999999999")) false
             99999999999999999999 (-20) eq_refl).
Defined.

End CoercionFacts.

(** ** Row normaliser *)

Module NormalizerFacts.
Import Text Cell Resolver Normalizer Spec CoercionFacts.

Lemma bind_ok {A B} (r : result A) (k : A -> result B) (b : B) :
  bind r k = Ok b -> exists a, r = Ok a /\ k a = Ok b.
Proof. destruct r as [a | e]; cbn; [eauto | discriminate]. Qed.

Lemma sequence_In {A B} (f : A -> result B) (l : list A) (l' : list B) :
  sequence (map f l) = Ok l' ->
  forall y, In y l' -> exists x, In x l /\ f x = Ok y.
Proof.
  revert l'. induction l as [|x l IH]; intros l'; cbn [map sequence].
  - intros H. injection H as <-. intros y [].
  - intros H. apply bind_ok in H as [a [Ha H]].
    apply bind_ok in H as [t [Ht H]]. injection H as <-.
    intros y [<- | I].
    + exists x. split; [left; reflexivity | exact Ha].
    + destruct (IH t Ht y I) as [x' [I' E]]. exists x'.
      split; [right; exact I' | exact E].
Qed.

(** A record of the frame takes each field from the column of that
    field. *)
Lemma frame_In (m d s h : list str) (st us : list Z) (p : list F64.float)
    (r : StockRecord) :
  In r (frame m d s h st us p) ->
  In (model r) m /\ In (material_description r) d /\ In (shrm r) s
  /\ In (home r) h /\ In (stock r) st /\ In (used_spares r) us
  /\ In (price r) p.
Proof.
  revert d s h st us p.
  induction m as [|m0 m IH]; intros [|d0 d] [|s0 s] [|h0 h] [|st0 st]
    [|us0 us] [|p0 p]; cbn [frame In]; try tauto.
  intros [<- | I]; [cbn; tauto |].
  destruct (IH _ _ _ _ _ _ I) as (? & ? & ? & ? & ? & ? & ?). tauto.
Qed.

(** *** The showroom and home columns *)

(** A null cell of a resolved column becomes the default text. *)
Lemma null_cell_defaults (c : cell) :
  pd_isna c = true ->
  replace (lit "nan") N_A (astype_str (fillna (CStr N_A) [c])) = [N_A].
Proof. intros H. cbn. rewrite H. reflexivity. Qed.

(** An empty text cell stays empty. *)
Example empty_cell_stays_empty :
  replace (lit "nan") N_A (astype_str (fillna (CStr N_A) [CStr []])) = [[]].
Proof. reflexivity. Qed.

Lemma In_repeat {A} (x y : A) (n : nat) : In y (repeat x n) -> y = x.
Proof. induction n; cbn; [tauto | intros [<- | H]; auto]. Qed.

(** When no showroom column was resolved, the field is the empty text in
    every record, not the default. *)
Lemma absent_showroom_column (raw : raw_frame) colmap recs :
  colmap !! k_shrm = None ->
  build_app_df raw colmap = Ok recs ->
  Forall (fun r => shrm r = []) recs.
Proof.
  intros Hs H. unfold build_app_df in H. cbv zeta in H.
  apply bind_ok in H as [m [_ H]]. apply bind_ok in H as [d [_ H]].
  apply bind_ok in H as [s [Es H]]. apply bind_ok in H as [h [_ H]].
  apply bind_ok in H as [st [_ H]]. apply bind_ok in H as [us [_ H]].
  apply bind_ok in H as [p [_ H]]. injection H as <-.
  unfold col_series in Es. rewrite Hs in Es. injection Es as <-.
  apply List.Forall_forall. intros r I.
  apply frame_In in I as (_ & _ & I & _).
  unfold replace, astype_str, fillna in I. rewrite !List.map_map in I.
  apply List.in_map_iff in I as [c [E I]]. apply In_repeat in I. subst c.
  cbn in E. symmetry. exact E.
Qed.

(** C6 at a sheet with the two mandatory columns only: the showroom and
    home fields of the record are empty, where the claim has the default
    [N-A]. *)
Lemma absent_columns_left_blank :
  build_app_df Examples.two_columns Examples.two_columns_map
  = Ok [ {| model := lit "M100"; material_description := lit "Blade";
            shrm := []; home := [];
            stock := 0; used_spares := 0; price := F64.zero |} ].
Proof. vm_compute. reflexivity. Qed.

(** *** The numeric columns *)

Lemma ge_zero_sign (s : bool) (m : positive) (e : Z) :
  F64.ge_zero (S754_finite s m e) = true -> s = false.
Proof. destruct s; [discriminate | reflexivity]. Qed.

Lemma to_int_nonneg (c : cell) (n : Z) :
  nonneg_int_cell c -> to_int c = Ok n -> 0 <= n.
Proof.
  intros P. unfold to_int, to_int_body.
  destruct (pd_isna c) eqn:N; [cbn; intros H; injection H as <-; lia |].
  destruct P as [P | [[e E] | [x [E G]]]]; [congruence | |]; rewrite E;
    cbn [bind].
  - cbn. intros H. injection H as <-. lia.
  - destruct x as [s | s | | s m e]; cbn; intros H; injection H as <-;
      try lia.
    apply ge_zero_sign in G. subst s. cbn. apply Z.shiftl_nonneg. lia.
Qed.

Lemma to_float_nonneg (c : cell) (x : F64.float) :
  nonneg_float_cell c -> to_float c = Ok x -> F64.ge_zero x = true.
Proof.
  intros P. unfold to_float, to_float_body.
  destruct (pd_isna c) eqn:N; [cbn; intros H; injection H as <-; reflexivity |].
  destruct P as [P | [[e E] | [y [E G]]]]; [congruence | |]; rewrite E; cbn.
  - intros H. injection H as <-. reflexivity.
  - intros H. injection H as <-. exact G.
Qed.

(** The default of an absent numeric column, the integer 0, is such a
    cell. *)
Lemma zero_cell_nonneg : nonneg_int_cell (CInt 0) /\ nonneg_float_cell (CInt 0).
Proof.
  split; right; right; eexists; split; vm_compute; reflexivity.
Qed.

Lemma col_series_cells (P : cell -> Prop) raw colmap (key : str)
    (default : cell) (col : list cell) :
  column_cells P raw colmap key -> P default ->
  col_series raw colmap key default = Ok col -> Forall P col.
Proof.
  intros C D. unfold col_series, column.
  destruct (colmap !! key) as [name|] eqn:K.
  - destruct (columns raw !! name) as [c|] eqn:L; [|discriminate].
    intros H. injection H as <-. eapply C; eassumption.
  - intros H. injection H as <-. apply List.Forall_forall.
    intros y I. apply In_repeat in I. subst y. exact D.
Qed.

Lemma int_column_nonneg raw colmap (key : str) (l : list Z) :
  column_cells nonneg_int_cell raw colmap key ->
  (if has_key colmap key
   then do c <- col_series raw colmap key (CInt 0); apply to_int c
   else Ok (repeat 0 (nrows raw))) = Ok l ->
  Forall (fun n => 0 <= n) l.
Proof.
  intros C. destruct (has_key colmap key).
  - intros H. apply bind_ok in H as [col [Ec H]].
    assert (Forall nonneg_int_cell col) as F.
    { eapply col_series_cells; [exact C | | exact Ec].
      apply zero_cell_nonneg. }
    apply List.Forall_forall. intros n I.
    destruct (sequence_In _ _ _ H n I) as [c [Ic En]].
    eapply to_int_nonneg; [|exact En].
    eapply List.Forall_forall in F; eassumption.
  - intros H. injection H as <-. apply List.Forall_forall.
    intros n I. apply In_repeat in I. lia.
Qed.

(** C8, as stated, fails: a negative stock cell gives a negative stock. *)
Lemma negative_stock_not_clamped :
  ~ (forall raw colmap recs,
       build_app_df raw colmap = Ok recs -> Forall nonneg_record recs).
Proof.
  intros H.
  assert (build_app_df Examples.negative_stock Examples.stock_map
          = Ok [ {| model := lit "M100"; material_description := lit "Blade";
                    shrm := []; home := [];
                    stock := -5; used_spares := 0; price := F64.zero |};
                 {| model := lit "M101"; material_description := lit "Guard";
                    shrm := []; home := [];
                    stock := 4; used_spares := 0; price := F64.zero |} ])
    as E by (vm_compute; reflexivity).
  apply H in E. apply List.Forall_inv in E. destruct E as [E _].
  cbn in E. lia.
Qed.

(** C8, amended.  Every stock record the normaliser produces has
    [stock >= 0], [used_spares >= 0] and [price >= 0.0], provided each cell
    of the columns resolved for stock, used spares and price is null, or
    has a text that [float] rejects, or has a text that [float] reads as a
    value [x] with [0.0 <= x], which neither a negative value nor NaN is.
    A field with no resolved column asks for nothing. *)
Theorem nonneg_fields_from_nonneg_cells (raw : raw_frame) colmap recs :
  build_app_df raw colmap = Ok recs ->
  column_cells nonneg_int_cell raw colmap k_stock ->
  column_cells nonneg_int_cell raw colmap k_used_spares ->
  column_cells nonneg_float_cell raw colmap k_price ->
  Forall nonneg_record recs.
Proof.
  intros H Cs Cu Cp. unfold build_app_df in H. cbv zeta in H.
  apply bind_ok in H as [m [_ H]]. apply bind_ok in H as [d [_ H]].
  apply bind_ok in H as [s [_ H]]. apply bind_ok in H as [h [_ H]].
  apply bind_ok in H as [st [Est H]]. apply bind_ok in H as [us [Eus H]].
  apply bind_ok in H as [p [Ep H]]. injection H as <-.
  apply int_column_nonneg in Est; [|exact Cs].
  apply int_column_nonneg in Eus; [|exact Cu].
  apply bind_ok in Ep as [col [Ec Ep]].
  assert (Forall nonneg_float_cell col) as Fp.
  { eapply col_series_cells; [exact Cp | | exact Ec].
    apply zero_cell_nonneg. }
  apply List.Forall_forall. intros r I.
  apply frame_In in I as (_ & _ & _ & _ & Ist & Ius & Ip).
  repeat split.
  - eapply List.Forall_forall in Est; eassumption.
  - eapply List.Forall_forall in Eus; eassumption.
  - destruct (sequence_In _ _ _ Ep _ Ip) as [c [Ic E]].
    eapply to_float_nonneg; [|exact E].
    eapply List.Forall_forall in Fp; eassumption.
Qed.

Ltac nonneg_cell :=
  first [ left; reflexivity
        | right; left; eexists; vm_compute; reflexivity
        | right; right; eexists; split; vm_compute; reflexivity ].

(** A sheet with a stock, a used-spares and a price column: numbers as
    integers, as floats and as text, a price with a thousands separator,
    missing cells, and text that is no number. *)
Lemma nonneg_fields_from_nonneg_cells_witness :
  build_app_df SheetSamples.priced_sheet SheetSamples.priced_map
  = Ok SheetSamples.priced_records
  /\ Forall nonneg_record SheetSamples.priced_records.
Proof.
  assert (build_app_df SheetSamples.priced_sheet SheetSamples.priced_map
          = Ok SheetSamples.priced_records) as E by (vm_compute; reflexivity).
  split; [exact E |].
  apply (nonneg_fields_from_nonneg_cells
           SheetSamples.priced_sheet SheetSamples.priced_map _ E);
    intros name col H1 H2; vm_compute in H1; injection H1 as <-;
    vm_compute in H2; injection H2 as <-;
    repeat (constructor; [nonneg_cell |]); constructor.
Defined.

(** Two cells outside the proviso.  The text [NAN] is read by [float],
    as NaN, which is not at least zero: the price of the record is NaN.
    The text [-0.5] is read as a negative value, yet the stock of the
    record is 0, the value truncated toward zero: the proviso is
    sufficient, not necessary. *)
Example cells_outside_the_proviso :
  ~ nonneg_float_cell (CStr (lit "NAN"))
  /\ to_float (CStr (lit "NAN")) = Ok S754_nan
  /\ F64.ge_zero S754_nan = false
  /\ ~ nonneg_int_cell (CStr (lit "-0.5"))
  /\ to_int (CStr (lit "-0.5")) = Ok 0.
Proof.
  split; [|split; [vm_compute; reflexivity |
           split; [reflexivity | split; [|vm_compute; reflexivity]]]].
  - intros [H | [[e E] | [x [E G]]]]; [discriminate H | |];
      vm_compute in E; [discriminate E |].
    injection E as <-. discriminate G.
  - intros [H | [[e E] | [x [E G]]]]; [discriminate H | |];
      vm_compute in E; [discriminate E |].
    injection E as <-. discriminate G.
Qed.

End NormalizerFacts.

(** ** Conversion of an integer to a double *)

Module F64Facts.

Lemma digits2_pos_lower (p : positive) :
  2 ^ (Zpos (digits2_pos p) - 1) <= Zpos p.
Proof.
  induction p as [p IH | p IH |]; cbn [digits2_pos].
  - rewrite Pos2Z.inj_succ.
    replace (Z.succ (Zpos (digits2_pos p)) - 1)
      with (Z.succ (Zpos (digits2_pos p) - 1)) by lia.
    rewrite Z.pow_succ_r by lia. lia.
  - rewrite Pos2Z.inj_succ.
    replace (Z.succ (Zpos (digits2_pos p)) - 1)
      with (Z.succ (Zpos (digits2_pos p) - 1)) by lia.
    rewrite Z.pow_succ_r by lia. lia.
  - reflexivity.
Qed.

(** A number below [2^k] has at most [k] binary digits. *)
Lemma Zdigits2_bound (m k : Z) :
  0 <= m < 2 ^ k -> 0 <= k -> Zdigits2 m <= k.
Proof.
  intros [H0 H1] Hk. destruct m as [|p|p]; cbn [Zdigits2]; [lia | | lia].
  pose proof (digits2_pos_lower p) as L.
  destruct (Z.le_gt_cases (Zpos (digits2_pos p)) k) as [?|G]; [assumption |].
  exfalso.
  assert (2 ^ k <= 2 ^ (Zpos (digits2_pos p) - 1))
    by (apply Z.pow_le_mono_r; lia).
  lia.
Qed.

Lemma shr_1_bounds (r : shr_record) :
  0 <= shr_m r -> 0 <= shr_m (shr_1 r) <= shr_m r.
Proof.
  destruct r as [m b s]. cbn [shr_m]. intros H.
  destruct m as [|[p|p|]|p]; cbn; lia.
Qed.

Lemma iter_shr_1_bounds (p : positive) (r : shr_record) :
  0 <= shr_m r -> 0 <= shr_m (SpecFloat.iter_pos shr_1 p r) <= shr_m r.
Proof.
  revert r. induction p as [p IH | p IH |]; intros r H; cbn [SpecFloat.iter_pos].
  - pose proof (shr_1_bounds r H) as B1.
    pose proof (IH (shr_1 r) (proj1 B1)) as B2.
    pose proof (IH _ (proj1 B2)) as B3. lia.
  - pose proof (IH r H) as B2.
    pose proof (IH _ (proj1 B2)) as B3. lia.
  - apply shr_1_bounds. exact H.
Qed.

Lemma shr_record_of_loc_m (m : Z) (l : location) :
  shr_m (shr_record_of_loc m l) = m.
Proof. destruct l as [|[]]; reflexivity. Qed.

(** One rounding shift: the mantissa does not grow and the exponent is
    the old one or the canonical one. *)
Lemma shr_fexp_bounds (m e : Z) (l : location) :
  0 <= m ->
  0 <= shr_m (fst (shr_fexp F64.prec F64.emax m e l)) <= m
  /\ snd (shr_fexp F64.prec F64.emax m e l)
     <= Z.max e (fexp F64.prec F64.emax (Zdigits2 m + e)).
Proof.
  intros H. unfold shr_fexp, shr.
  destruct (fexp F64.prec F64.emax (Zdigits2 m + e) - e) as [|n|n] eqn:E;
    cbn [fst snd].
  - rewrite shr_record_of_loc_m. lia.
  - pose proof (iter_shr_1_bounds n (shr_record_of_loc m l)) as B.
    rewrite shr_record_of_loc_m in B. split; [apply B; exact H | lia].
  - rewrite shr_record_of_loc_m. lia.
Qed.

Lemma round_nearest_even_bounds (m : Z) (l : location) :
  0 <= m -> 0 <= round_nearest_even m l <= m + 1.
Proof.
  intros H. unfold round_nearest_even.
  destruct l as [|[]]; try lia. destruct (Z.even m); lia.
Qed.

Lemma fexp_le (x k : Z) :
  x <= k -> -1074 <= k - 53 -> fexp F64.prec F64.emax x <= k - 53.
Proof. unfold fexp, emin, F64.prec, F64.emax. lia. Qed.

(** Rounding a mantissa below [2^64] at an exponent of at most 11 does
    not overflow. *)
Lemma binary_round_aux_finite (s : bool) (m e : Z) (l : location) :
  0 <= m < 2 ^ 64 -> e <= 11 ->
  forall s', binary_round_aux F64.prec F64.emax s m e l <> S754_infinity s'.
Proof.
  intros [H0 H1] He s'. unfold binary_round_aux.
  pose proof (shr_fexp_bounds m e l H0) as [B1 E1].
  destruct (shr_fexp F64.prec F64.emax m e l) as [mrs' e'].
  cbn [fst snd] in B1, E1.
  pose proof (round_nearest_even_bounds (shr_m mrs')
                (loc_of_shr_record mrs') (proj1 B1)) as R.
  set (m1 := round_nearest_even (shr_m mrs') (loc_of_shr_record mrs')) in *.
  pose proof (shr_fexp_bounds m1 e' loc_Exact (proj1 R)) as [B2 E2].
  destruct (shr_fexp F64.prec F64.emax m1 e' loc_Exact) as [mrs'' e''].
  cbn [fst snd] in B2, E2.
  assert (Zdigits2 m <= 64) as D by (apply Zdigits2_bound; lia).
  assert (e' <= 22) as He'.
  { pose proof (fexp_le (Zdigits2 m + e) 75). lia. }
  assert (Zdigits2 m1 <= 65) as D1.
  { apply Zdigits2_bound; [|lia].
    change (2 ^ 65) with (2 * 2 ^ 64). lia. }
  assert (e'' <= 34) as He''.
  { pose proof (fexp_le (Zdigits2 m1 + e') 87). lia. }
  destruct (shr_m mrs'') as [|q|q]; try discriminate.
  destruct (Z.leb_spec e'' (F64.emax - F64.prec)) as [_ | G]; [discriminate |].
  unfold F64.emax, F64.prec in G. lia.
Qed.

Lemma shl_align_bounds (p : positive) (d : positive) :
  Zpos (Pos.iter xO p d) = Zpos p * 2 ^ Zpos d.
Proof.
  induction d as [|d IH] using Pos.peano_ind.
  - cbn. lia.
  - rewrite Pos.iter_succ, Pos2Z.inj_succ, Z.pow_succ_r by lia.
    rewrite Pos2Z.inj_xO, IH. lia.
Qed.

(** [float(n)] succeeds on every integer of the [int64] range. *)
Lemma of_int_ok (n : Z) :
  - 2 ^ 63 <= n < 2 ^ 63 -> exists f, F64.of_int n = Ok f.
Proof.
  intros H. unfold F64.of_int.
  destruct (binary_normalize F64.prec F64.emax n 0 false) as [| s' | |] eqn:E;
    eauto.
  exfalso. revert E. unfold binary_normalize.
  assert (forall s p, Zpos p <= 2 ^ 63 ->
            binary_round F64.prec F64.emax s p 0 <> S754_infinity s') as K.
  { intros s p Hp. unfold binary_round.
    destruct (shl_align p 0 _) as [mz ez] eqn:A.
    unfold shl_align in A.
    set (x := fexp F64.prec F64.emax (Zpos (digits2_pos p) + 0)) in *.
    assert (Zdigits2 (Zpos p) <= 64) as D.
    { apply Zdigits2_bound; [|lia]. change (2 ^ 64) with (2 * 2 ^ 63). lia. }
    cbn [Zdigits2] in D.
    assert (x <= 11) as Hx.
    { subst x. pose proof (fexp_le (Zpos (digits2_pos p) + 0) 64). lia. }
    destruct (x - 0) as [|k|k] eqn:Ex.
    - injection A as <- <-. apply binary_round_aux_finite; [|lia].
      change (2 ^ 64) with (2 * 2 ^ 63). lia.
    - injection A as <- <-. apply binary_round_aux_finite; [|lia].
      change (2 ^ 64) with (2 * 2 ^ 63). lia.
    - injection A as <- <-. apply binary_round_aux_finite; [|lia].
      rewrite shl_align_bounds.
      (* here x < 0, so p has fewer than 53 digits and the shifted
         mantissa has exactly 53 *)
      pose proof (digits2_pos_lower p) as L.
      assert (x = Zpos (digits2_pos p) - 53 \/ x = -1074) as Cx
        by (subst x; unfold fexp, emin, F64.prec, F64.emax; lia).
      assert (Zpos k = - x) as Hk by lia.
      assert (Zpos p < 2 ^ Zpos (digits2_pos p)) as U.
      { clear. induction p as [p IH | p IH |]; cbn [digits2_pos];
          rewrite ?Pos2Z.inj_succ, ?Z.pow_succ_r by lia; lia. }
      split; [lia |].
      assert (Zpos k <= 53 - Zpos (digits2_pos p)) as Hk'.
      { subst x. unfold fexp, emin, F64.prec, F64.emax in *. lia. }
      assert (Zpos p * 2 ^ Zpos k < 2 ^ Zpos (digits2_pos p) * 2 ^ Zpos k)
        by (apply Z.mul_lt_mono_pos_r; [apply Z.pow_pos_nonneg; lia | lia]).
      rewrite <- Z.pow_add_r in H0 by lia.
      assert (2 ^ (Zpos (digits2_pos p) + Zpos k) <= 2 ^ 64)
        by (apply Z.pow_le_mono_r; lia).
      lia. }
  destruct n as [|p|p]; [discriminate | apply K; lia | apply K; lia].
Qed.

End F64Facts.

(** ** Tab 2: the two edit paths *)

Module CartFacts.
Import Normalizer Search Cart Spec F64Facts.

Lemma sequence_map_ext {A B} (f : A -> result B) (g : A -> B) (l : list A) :
  (forall x, In x l -> f x = Ok (g x)) ->
  sequence (map f l) = Ok (map g l).
Proof.
  induction l as [|x l IH]; intros H; cbn [map sequence]; [reflexivity |].
  rewrite (H x) by (left; reflexivity). cbn [bind].
  rewrite IH by (intros y I; apply H; right; exact I). reflexivity.
Qed.

Lemma sequence_imap_ext {A B} (f : nat -> A -> result B) (g : nat -> A -> B)
    (l : list A) :
  (forall i x, l !! i = Some x -> f i x = Ok (g i x)) ->
  sequence (imap f l) = Ok (imap g l).
Proof.
  revert f g. induction l as [|x l IH]; intros f g H; cbn [imap sequence];
    [reflexivity |].
  rewrite (H 0%nat x eq_refl). cbn [bind].
  rewrite (IH (f ∘ S) (g ∘ S)) by (intros i y L; apply (H (S i)); exact L).
  reflexivity.
Qed.

Lemma lookup_map {A B} (f : A -> B) (l : list A) (i : nat) :
  map f l !! i = option_map f (l !! i).
Proof.
  revert i. induction l as [|x l IH]; intros [|i]; cbn; auto.
Qed.

Lemma lookup_In {A} (l : list A) (i : nat) (x : A) :
  l !! i = Some x -> In x l.
Proof.
  revert i. induction l as [|y l IH]; intros [|i]; cbn; try discriminate.
  - intros H. injection H as <-. left. reflexivity.
  - intros H. right. eapply IH. exact H.
Qed.

Lemma in_int64_range (n : Z) :
  in_int64 n = true <-> - 2 ^ 63 <= n < 2 ^ 63.
Proof. unfold in_int64. rewrite andb_true_iff, Z.leb_le, Z.ltb_lt. tauto. Qed.

Lemma astype_int_ok (n : Z) : in_int64 n = true -> astype_int n = Ok n.
Proof. intros H. unfold astype_int. rewrite H. reflexivity. Qed.

Lemma clamp_is_max (q : Z) : (if q <? 0 then 0 else q) = Z.max 0 q.
Proof. destruct (Z.ltb_spec q 0); lia. Qed.

(** [req_df] of a list whose quantities fit the column. *)
Lemma req_df_shown (rows : list RequestLine) :
  stored_in_range rows -> req_df rows = Ok (map shown_row rows).
Proof.
  intros H. unfold req_df. apply sequence_map_ext. intros l I.
  unfold stored_in_range in H. rewrite List.Forall_forall in H.
  unfold req_row. rewrite (astype_int_ok _ (H l I)). cbn [bind].
  unfold shown_row, shown_qty. rewrite clamp_is_max. reflexivity.
Qed.

Lemma shown_qty_range (l : RequestLine) :
  in_int64 (default 1 (qty l)) = true -> 0 <= shown_qty l < 2 ^ 63.
Proof. intros H. apply in_int64_range in H. unfold shown_qty. lia. Qed.

Lemma price_times_ok (p : F64.float) (q : Z) :
  - 2 ^ 63 <= q < 2 ^ 63 -> exists x, price_times p q = Ok x.
Proof.
  intros H. unfold price_times. destruct (of_int_ok q H) as [f ->].
  cbn. eauto.
Qed.

(** The lines the card path stores, when the widgets honour their
    minimum. *)
Lemma card_rows_lines (entered : nat -> option Z) (df : list ReqRow) :
  entries_honour_min entered ->
  (forall row, In row df -> 0 <= rr_qty row < 2 ^ 63) ->
  card_rows entered df = Ok (imap (card_line entered) df).
Proof.
  intros He Hd. unfold card_rows. apply sequence_imap_ext.
  intros i row L. pose proof (Hd row (lookup_In _ _ _ L)) as R.
  unfold card_row, number_input.
  destruct (Z.ltb_spec (rr_qty row) 0) as [?|_]; [lia |]. cbn [bind].
  assert (- 2 ^ 63 <= default (rr_qty row) (entered i) < 2 ^ 63) as Q.
  { destruct (entered i) as [q|] eqn:E; cbn; [|lia].
    pose proof (He i q E). lia. }
  destruct (price_times_ok (price (rr_item row)) _ Q) as [x ->].
  reflexivity.
Qed.

Lemma card_totals_ok (rows : list RequestLine) :
  (forall l, In l rows -> - 2 ^ 63 <= default 0 (qty l) < 2 ^ 63) ->
  exists amount,
    card_totals rows
    = Ok {| total_items := Z.of_nat (length rows);
            total_qty := sum_Z (map (fun r => default 0 (qty r)) rows);
            total_amount := amount |}.
Proof.
  intros H. unfold card_totals.
  assert (exists amounts,
            sequence (map (fun r => price_times (price (item r))
                                      (default 0 (qty r))) rows)
            = Ok amounts) as [amounts ->].
  { induction rows as [|l rows IH]; cbn [map sequence]; [eauto |].
    destruct (price_times_ok (price (item l)) _ (H l (or_introl eq_refl)))
      as [x ->].
    destruct IH as [t ->]; [intros; apply H; right; assumption |].
    cbn. eauto. }
  cbn [bind]. eauto.
Qed.

(** The rows of [edited_df], when the editor honours its minimum. *)
Lemma edited_df_rows (edits : nat -> edit) (df : list ReqRow) :
  edits_honour_min edits ->
  (forall row, In row df -> 0 <= rr_qty row < 2 ^ 63) ->
  edited_df edits df = Ok (imap (edited_row edits) df).
Proof.
  intros He Hd. unfold edited_df. apply sequence_imap_ext.
  intros i row L. pose proof (Hd row (lookup_In _ _ _ L)) as R.
  unfold table_row, edited_row. cbv zeta.
  rewrite astype_int_ok; [reflexivity |].
  apply in_int64_range. unfold edited_qty.
  destruct (edits i) as [| |q] eqn:E; cbn; try lia.
  pose proof (He i q E). lia.
Qed.

(** Two lists with the same items that compare equal are the same list:
    the comparison in the table path decides nothing about the result. *)
Lemma rows_eqb_same_items (a b : list RequestLine) :
  map item a = map item b -> rows_eqb a b = true -> a = b.
Proof.
  revert b. induction a as [|x a IH]; intros [|y b]; cbn;
    try discriminate; [reflexivity |].
  intros M E. injection M as Mx Ma.
  apply andb_true_iff in E as [E1 E2].
  unfold line_eqb in E1. apply andb_true_iff in E1 as [_ Eq].
  f_equal; [|apply IH; assumption].
  destruct x as [ix qx], y as [iy qy]. cbn in *. subst iy. f_equal.
  destruct qx, qy; cbn in Eq; try discriminate; [|reflexivity].
  apply Z.eqb_eq in Eq. congruence.
Qed.

Lemma imap_ext_map {A B C} (f : nat -> A -> B) (g : B -> C) (h : A -> C)
    (l : list A) :
  (forall i x, g (f i x) = h x) -> map g (imap f l) = map h l.
Proof.
  revert f. induction l as [|x l IH]; intros f H; cbn; [reflexivity |].
  rewrite H. f_equal. apply IH. intros i y. apply H.
Qed.

(** The table path, when the editor honours its minimum: the stored list
    is [new_rows]. *)
Lemma table_path_rows (edits : nat -> edit) (rows : list RequestLine) :
  stored_in_range rows -> edits_honour_min edits ->
  table_path edits rows
  = Ok (to_records (imap (edited_row edits) (map shown_row rows)),
        table_totals (imap (edited_row edits) (map shown_row rows))).
Proof.
  intros Hs He. unfold table_path.
  rewrite (req_df_shown rows Hs). cbn [bind].
  rewrite edited_df_rows; [|exact He|].
  - cbn [bind]. cbv zeta.
    destruct (rows_eqb _ rows) eqn:E; [|reflexivity].
    apply rows_eqb_same_items in E; [f_equal; f_equal; symmetry; exact E |].
    unfold to_records. rewrite List.map_map. cbn [item].
    rewrite (imap_ext_map _ _ rr_item) by reflexivity.
    rewrite List.map_map. reflexivity.
  - intros row I. apply List.in_map_iff in I as [l [<- I]].
    unfold stored_in_range in Hs. rewrite List.Forall_forall in Hs.
    cbn [shown_row rr_qty]. apply shown_qty_range, Hs, I.
Qed.

Lemma card_path_rows (entered : nat -> option Z) (rows : list RequestLine) :
  stored_in_range rows -> entries_honour_min entered ->
  let stored := imap (card_line entered) (map shown_row rows) in
  exists amount,
    card_path entered rows
    = Ok (stored,
          {| total_items := Z.of_nat (length stored);
             total_qty := sum_Z (map (fun r => default 0 (qty r)) stored);
             total_amount := amount |}).
Proof.
  intros Hs He stored. unfold card_path.
  assert (forall row, In row (map shown_row rows) -> 0 <= rr_qty row < 2 ^ 63)
    as Hd.
  { intros row I. apply List.in_map_iff in I as [l [<- I]].
    unfold stored_in_range in Hs. rewrite List.Forall_forall in Hs.
    cbn [shown_row rr_qty]. apply shown_qty_range, Hs, I. }
  rewrite (req_df_shown rows Hs). cbn [bind].
  rewrite (card_rows_lines entered _ He Hd). cbn [bind]. fold stored.
  destruct (card_totals_ok stored) as [amount ->]; [|cbn; eauto].
  intros l I. apply list_elem_of_In, list_elem_of_lookup in I as [i L].
  unfold stored in L. rewrite list_lookup_imap in L.
  destruct (map shown_row rows !! i) as [row|] eqn:R; [|discriminate].
  cbn in L. injection L as <-. cbn [card_line qty default].
  pose proof (Hd row (lookup_In _ _ _ R)).
  destruct (entered i) as [q|] eqn:E; cbn; [|lia].
  pose proof (He i q E). lia.
Qed.

Lemma card_line_at (entered : nat -> option Z) (rows : list RequestLine)
    (i : nat) :
  imap (card_line entered) (map shown_row rows) !! i
  = option_map (fun l => card_line entered i (shown_row l)) (rows !! i).
Proof.
  rewrite list_lookup_imap, lookup_map. destruct (rows !! i); reflexivity.
Qed.

Lemma table_line_at (edits : nat -> edit) (rows : list RequestLine)
    (i : nat) :
  to_records (imap (edited_row edits) (map shown_row rows)) !! i
  = option_map
      (fun l => {| item := item l;
                   qty := Some (default 0 (edited_qty (edits i)
                                             (shown_row l))) |})
      (rows !! i).
Proof.
  unfold to_records. rewrite lookup_map, list_lookup_imap, lookup_map.
  destruct (rows !! i); reflexivity.
Qed.

Lemma shown_qty_nonneg (l : RequestLine) : 0 <= shown_qty l.
Proof. unfold shown_qty. lia. Qed.

Lemma shown_qty_of_negative (l : RequestLine) (q : Z) :
  qty l = Some q -> q < 0 -> shown_qty l = 0.
Proof. intros E N. unfold shown_qty. rewrite E. cbn. lia. Qed.

(** *** The quantity stored for each line *)









(** *** The two paths against each other *)

Lemma wrap64_in_range (n : Z) : in_int64 n = true -> wrap64 n = n.
Proof.
  intros H. apply in_int64_range in H. unfold wrap64.
  rewrite Z.mod_small; [lia |].
  change (2 ^ 64) with (2 * 2 ^ 63). lia.
Qed.

(** The same quantities put on every line through either path leave the
    same request list, with the same number of lines and, as long as it
    fits the integer column, the same total quantity. *)
Lemma same_edits_same_list (rows : list RequestLine) (qs : nat -> Z) :
  stored_in_range rows ->
  (forall i, 0 <= qs i < 2 ^ 63) ->
  exists stored t1 t2,
    card_path (fun i => Some (qs i)) rows = Ok (stored, t1)
    /\ table_path (fun i => Put (qs i)) rows = Ok (stored, t2)
    /\ total_items t1 = total_items t2
    /\ (in_int64 (total_qty t1) = true -> total_qty t2 = total_qty t1).
Proof.
  intros Hs Hq.
  assert (entries_honour_min (fun i => Some (qs i))) as He
    by (intros i q E; injection E as <-; apply Hq).
  assert (edits_honour_min (fun i => Put (qs i))) as Ht
    by (intros i q E; injection E as <-; apply Hq).
  destruct (card_path_rows _ rows Hs He) as [amount E1]. cbv zeta in E1.
  pose proof (table_path_rows _ rows Hs Ht) as E2.
  set (ed := imap (edited_row (fun i => Put (qs i))) (map shown_row rows))
    in *.
  assert (imap (card_line (fun i => Some (qs i))) (map shown_row rows)
          = to_records ed) as S.
  { apply list_eq. intros i. unfold ed.
    rewrite card_line_at, table_line_at.
    destruct (rows !! i); reflexivity. }
  rewrite S in E1. do 3 eexists. split; [exact E1 |]. split; [exact E2 |].
  cbn [total_items total_qty table_totals].
  assert (map (fun r => default 0 (qty r)) (to_records ed) = map rr_qty ed)
    as Q by (unfold to_records; rewrite List.map_map; reflexivity).
  rewrite Q. split.
  - unfold to_records. rewrite length_map. reflexivity.
  - intros R. apply wrap64_in_range. exact R.
Qed.

(** C9 at a request list with one line whose price is infinite, the
    quantity set to 0 through either path: the stored lists agree, the
    total amounts do not.  The card path sums with Python's [sum], which
    carries the NaN line total into the total; the table path sums with
    the column's [sum], which passes over NaN entries. *)
Lemma totals_differ_on_nan_line_total :
  card_path Examples.all_zero Examples.motor_list
  = Ok ([ {| item := Examples.motor; qty := Some 0 |} ],
        {| total_items := 1; total_qty := 0; total_amount := S754_nan |})
  /\ table_path Examples.all_put_zero Examples.motor_list
     = Ok ([ {| item := Examples.motor; qty := Some 0 |} ],
           {| total_items := 1; total_qty := 0; total_amount := F64.zero |}).
Proof. split; vm_compute; reflexivity. Qed.

(** How such a price gets into the table: the text [inf] in a price
    cell, and likewise [NAN]. *)
Example price_cells_without_a_number :
  Cell.to_float (Cell.CStr (lit "inf")) = Ok (S754_infinity false)
  /\ Cell.to_float (Cell.CStr (lit "NAN")) = Ok S754_nan.
Proof. split; vm_compute; reflexivity. Qed.

End CartFacts.

(** ** Column resolver: every field, and which header wins *)

Module ColumnMapFacts.
Import Text Resolver Spec TextFacts ResolverFacts.

Lemma keeps_plain (c : ascii) :
  keeps c = true -> is_space c = false /\ lower_char c = c.
Proof.
  destruct c as [[] [] [] [] [] [] [] []]; vm_compute; intros H;
    split; congruence.
Qed.

Lemma lstrip_no_space (s : str) :
  Forall (fun c => is_space c = false) s -> lstrip s = s.
Proof. intros H. destruct H as [|c s E _]; cbn; [reflexivity | rewrite E; reflexivity]. Qed.

Lemma strip_no_space (s : str) :
  Forall (fun c => is_space c = false) s -> strip s = s.
Proof.
  intros H. unfold strip, rstrip. rewrite (lstrip_no_space s H).
  rewrite lstrip_no_space; [apply rev_involutive |].
  apply List.Forall_forall. intros c I. apply List.in_rev in I.
  eapply List.Forall_forall in H; eassumption.
Qed.

Lemma filter_keeps_all (s : str) :
  Forall (fun c => keeps c = true) s -> List.filter keeps s = s.
Proof.
  induction 1 as [|c s E _ IH]; cbn; [reflexivity |].
  rewrite E, IH. reflexivity.
Qed.

Lemma norm_keeps (s : str) : Forall (fun c => keeps c = true) (_norm s).
Proof.
  unfold _norm. apply List.Forall_forall. intros c I.
  apply List.filter_In in I. tauto.
Qed.

(** X1.  A normal form is made of lowercase letters and digits only, and
    normalising it again changes nothing. *)
Theorem norm_idempotent (s : str) :
  Forall (fun c => is_lower c || is_digit c = true) (_norm s)
  /\ _norm (_norm s) = _norm s.
Proof.
  pose proof (norm_keeps s) as K. split; [exact K |].
  set (n := _norm s) in *. unfold _norm.
  assert (Forall (fun c => is_space c = false) n) as Sp.
  { eapply List.Forall_impl; [|exact K]. intros c H. apply keeps_plain, H. }
  rewrite (strip_no_space n Sp).
  assert (lower n = n) as L.
  { unfold lower. clear Sp. induction K as [|c l E _ IH]; cbn; [reflexivity |].
    rewrite IH. f_equal. apply keeps_plain, E. }
  rewrite L. apply filter_keeps_all, K.
Qed.

(** The column map at any key of a table without repeated keys. *)
Lemma fold_resolve_lookup nta (table : list (str * list str)) m (k : str) :
  NoDup (map fst table) ->
  fold_left (resolve nta) table m !! k
  = match first_match nta (candidates_of k table) with
    | Some a => Some a
    | None => m !! k
    end.
Proof.
  revert m. induction table as [|[k0 opts] t IH]; intros m N;
    cbn [fold_left candidates_of map fst] in *; [reflexivity |].
  apply NoDup_cons in N as [N0 N]. rewrite (IH _ N).
  destruct (str_eqb k0 k) eqn:E.
  - apply str_eqb_eq in E. subst k0.
    assert (candidates_of k t = []) as C.
    { clear -N0. induction t as [|[k1 o1] t IH]; cbn; [reflexivity |].
      destruct (str_eqb k1 k) eqn:E.
      - apply str_eqb_eq in E. subst k1. exfalso. apply N0. cbn.
        apply list_elem_of_In. left. reflexivity.
      - apply IH. intros I. apply N0. cbn. right. exact I. }
    rewrite C. cbn [first_match]. unfold resolve. cbn [fst snd].
    destruct (first_match nta opts); [apply lookup_insert_eq | reflexivity].
  - assert (k0 <> k) as Ne.
    { intros ->. rewrite (proj2 (str_eqb_eq k k) eq_refl) in E. discriminate. }
    destruct (first_match nta (candidates_of k t)); [reflexivity |].
    apply resolve_other. exact Ne.
Qed.

Lemma candidates_of_key (table : list (str * list str)) (key o : str) :
  In o (candidates_of key table) -> In key (map fst table).
Proof.
  induction table as [|[k opts] t IH]; cbn [candidates_of map fst In];
    [tauto |].
  destruct (str_eqb k key) eqn:E.
  - apply str_eqb_eq in E. auto.
  - auto.
Qed.

Lemma CANDIDATES_keys_distinct : NoDup (map fst CANDIDATES).
Proof.
  apply NoDup_ListNoDup. 
  repeat (constructor; [cbn; intros H;
    repeat (destruct H as [H | H]; [vm_compute in H; discriminate H |]);
    exact H |]).
  constructor.
Qed.

Lemma colmap_lookup (cols : list str) colmap (key : str) :
  build_column_map cols = Ok colmap ->
  colmap !! key
  = first_match (norm_to_actual cols) (candidates_of key CANDIDATES).
Proof.
  unfold build_column_map. cbv zeta.
  pose proof (fold_resolve_lookup (norm_to_actual cols) CANDIDATES ∅ key
                CANDIDATES_keys_distinct) as F.
  set (cm := fold_left (resolve (norm_to_actual cols)) CANDIDATES ∅) in *.
  destruct (_ || _); [discriminate |]. intros H. injection H as <-.
  rewrite F.
  destruct (first_match _ _); [reflexivity | apply lookup_empty].
Qed.

(** The column map is the fold over [CANDIDATES], once both mandatory
    fields are bound in it. *)
Lemma build_column_map_ok (cols : list str) :
  let cm := fold_left (resolve (norm_to_actual cols)) CANDIDATES ∅ in
  has_key cm k_model = true ->
  has_key cm k_material_description = true ->
  build_column_map cols = Ok cm.
Proof.
  intros cm Hm Hd. unfold build_column_map. cbv zeta. fold cm.
  rewrite Hm, Hd. reflexivity.
Qed.

(** X2.  In a column map that was built, every field (optional ones
    too) is bound exactly when some header is an alias of it, and then to
    a header of the sheet that is such an alias; nothing but the seven
    fields of [CANDIDATES] is bound. *)
Theorem column_map_fields (cols : list str) colmap :
  build_column_map cols = Ok colmap ->
  forall key,
    (resolvable key cols <-> is_Some (colmap !! key))
    /\ (forall h, colmap !! key = Some h ->
          In h cols /\ alias_header key h /\ In key (map fst CANDIDATES)).
Proof.
  intros B key. rewrite (colmap_lookup cols colmap key B).
  pose proof (first_match_resolvable key cols) as R.
  destruct (first_match _ _) as [a|] eqn:E.
  - destruct R as [I A]. split.
    + split; [eauto | intros _; exists a; split; assumption].
    + intros h H. injection H as <-. split; [exact I |]. split; [exact A |].
      destruct A as [o [Io _]]. eapply candidates_of_key. exact Io.
  - split; [|discriminate].
    split; [intros H; contradiction | intros [x H]; discriminate].
Qed.

Lemma first_match_split nta (options : list str) (h : str) :
  first_match nta options = Some h ->
  exists before a after,
    options = before ++ a :: after
    /\ nta !! _norm a = Some h
    /\ forall o, In o before -> nta !! _norm o = None.
Proof.
  induction options as [|o options IH]; cbn [first_match]; [discriminate |].
  destruct (nta !! _norm o) as [x|] eqn:E.
  - intros H. injection H as <-. exists [], o, options.
    split; [reflexivity |]. split; [exact E | intros ? []].
  - intros H. destruct (IH H) as (before & a & after & -> & L & N).
    exists (o :: before), a, after. split; [reflexivity |].
    split; [exact L |]. intros o' [<- | I]; [exact E | apply N, I].
Qed.

(** The header stored for a normal form is the last one that has it. *)
Lemma norm_to_actual_last (cols : list str) (n h : str) :
  norm_to_actual cols !! n = Some h ->
  exists pre post,
    cols = pre ++ h :: post /\ _norm h = n
    /\ forall c, In c post -> _norm c <> n.
Proof.
  unfold norm_to_actual.
  induction cols as [|c cols IH] using rev_ind; cbn [fold_left].
  - rewrite lookup_empty. discriminate.
  - rewrite fold_left_app. cbn [fold_left].
    destruct (decide (_norm c = n)) as [<- | N].
    + rewrite lookup_insert_eq. intros H. injection H as <-.
      exists cols, []. split; [reflexivity |]. split; [reflexivity |].
      intros ? [].
    + rewrite lookup_insert_ne by exact N. intros H.
      destruct (IH H) as (pre & post & -> & E & P).
      exists pre, (post ++ [c]). split; [rewrite <- app_assoc; reflexivity |].
      split; [exact E |]. intros c' I. apply in_app_or in I as [I | [<- | []]];
        [apply P, I | exact N].
Qed.

Lemma norm_to_actual_none (cols : list str) (n : str) :
  norm_to_actual cols !! n = None -> forall c, In c cols -> _norm c <> n.
Proof.
  intros H c I <-. destruct (norm_to_actual_some cols c I) as [x E].
  congruence.
Qed.

(** X3.  Which header a field is bound to.  The aliases of the field are
    tried in the order of [CANDIDATES]: the header bound normalises to the
    first alias that any header of the sheet normalises to, whatever the
    order of the columns; and among the headers with that normal form it
    is the last one of the sheet. *)
Theorem first_alias_last_header (cols : list str) colmap (key h : str) :
  build_column_map cols = Ok colmap ->
  colmap !! key = Some h ->
  exists before a after pre post,
    candidates_of key CANDIDATES = before ++ a :: after
    /\ _norm h = _norm a
    /\ (forall o c, In o before -> In c cols -> _norm c <> _norm o)
    /\ cols = pre ++ h :: post
    /\ (forall c, In c post -> _norm c <> _norm h).
Proof.
  intros B L. rewrite (colmap_lookup cols colmap key B) in L.
  apply first_match_split in L as (before & a & after & C & La & Nb).
  apply norm_to_actual_last in La as (pre & post & Ec & En & Pl).
  exists before, a, after, pre, post. split; [exact C |].
  split; [exact En |]. split.
  - intros o c Io Ic. eapply norm_to_actual_none; [apply Nb, Io | exact Ic].
  - split; [exact Ec |]. rewrite En. exact Pl.
Qed.

Lemma first_alias_last_header_witness :
  exists colmap,
    build_column_map [lit "Part No"; lit "MODEL"; lit "Desc"; lit "model "]
    = Ok colmap
    /\ colmap !! k_model = Some (lit "model ")
    /\ exists before a after pre post,
         candidates_of k_model CANDIDATES = before ++ a :: after
         /\ _norm (lit "model ") = _norm a
         /\ (forall o c, In o before ->
               In c [lit "Part No"; lit "MODEL"; lit "Desc"; lit "model "] ->
               _norm c <> _norm o)
         /\ [lit "Part No"; lit "MODEL"; lit "Desc"; lit "model "]
            = pre ++ lit "model " :: post
         /\ (forall c, In c post -> _norm c <> _norm (lit "model ")).
Proof.
  set (cols := [lit "Part No"; lit "MODEL"; lit "Desc"; lit "model "]).
  exists (fold_left (resolve (norm_to_actual cols)) CANDIDATES ∅).
  assert (build_column_map cols
          = Ok (fold_left (resolve (norm_to_actual cols)) CANDIDATES ∅)) as B
    by (apply build_column_map_ok; vm_compute; reflexivity).
  assert (fold_left (resolve (norm_to_actual cols)) CANDIDATES ∅ !! k_model
          = Some (lit "model ")) as L by (vm_compute; reflexivity).
  split; [exact B |]. split; [exact L |].
  exact (first_alias_last_header cols _ k_model (lit "model ") B L).
Defined.

Lemma column_map_fields_witness :
  exists colmap,
    build_column_map Examples.headers_ok = Ok colmap
    /\ forall key,
         (resolvable key Examples.headers_ok <-> is_Some (colmap !! key))
         /\ (forall h, colmap !! key = Some h ->
               In h Examples.headers_ok /\ alias_header key h
               /\ In key (map fst CANDIDATES)).
Proof.
  exists (fold_left (resolve (norm_to_actual Examples.headers_ok))
            CANDIDATES ∅).
  assert (build_column_map Examples.headers_ok
          = Ok (fold_left (resolve (norm_to_actual Examples.headers_ok))
                  CANDIDATES ∅)) as B
    by (apply build_column_map_ok; vm_compute; reflexivity).
  split; [exact B | exact (column_map_fields Examples.headers_ok _ B)].
Defined.

End ColumnMapFacts.

(** ** Tab 1: the filter, the add resolution and the suggestions together *)

Module SuggestFacts.
Import Text Regex Normalizer Search Spec Matching Suggest.
Import TextFacts RegexFacts SearchFacts AddFacts.

Lemma ci_prefix_contains (q s : str) : ci_prefix q s -> ci_contains q s.
Proof. intros (mid & post & H & L). exists [], mid, post. auto. Qed.

Lemma hits_within_filter (q : str) (r : StockRecord) :
  hits_mask q r = Some true -> filter_mask q r = Some true.
Proof.
  unfold hits_mask, filter_mask. destruct (str_in SEP q); [tauto |].
  destruct (str_match_caret_escape q (model r)) as [vp [-> Hp]].
  destruct (str_contains_escape q (model r)) as [vm [-> Hm]].
  destruct (str_contains_escape q (material_description r)) as [vd [-> Hd]].
  cbn [or_mask]. intros H. injection H as H. f_equal.
  apply orb_true_iff in H as [H | H]; [|rewrite H; apply orb_true_r].
  apply orb_true_iff. left. apply Hm, ci_prefix_contains, Hp, H.
Qed.

(** X4.  Every row the add-to-list resolution counts as a match of a
    query is a row the live filter shows for that query. *)
Theorem add_matches_are_shown (df : list StockRecord) (typed : str)
    (shown : list StockRecord) (r : StockRecord) :
  spare_filtered df typed = Some shown ->
  nonempty (search_value typed) = true ->
  In r (hits (search_value typed) df) ->
  In r shown.
Proof.
  unfold spare_filtered. intros S N. rewrite N in S.
  set (q := search_value typed) in *. clearbody q. unfold hits.
  intros I. apply List.filter_In in I as [I H].
  unfold is_hit in H.
  assert (filter_mask q r = Some true) as F.
  { apply hits_within_filter. destruct (hits_mask q r) as [[]|]; congruence. }
  clear H. revert shown S.
  induction df as [|x df IH]; intros shown S; [destruct I |].
  cbn [select] in S.
  destruct (filter_mask q x) as [b|] eqn:Ex; [|discriminate].
  destruct (select (filter_mask q) df) as [t|] eqn:Et; [|discriminate].
  injection S as <-. destruct I as [-> | I].
  - rewrite F in Ex. injection Ex as <-. left. reflexivity.
  - specialize (IH I t eq_refl). destruct b; [right |]; exact IH.
Qed.

Lemma add_matches_are_shown_witness :
  In Examples.blade [Examples.blade; Examples.guard].
Proof.
  apply (add_matches_are_shown Examples.table (lit "m1")).
  - vm_compute. reflexivity.
  - reflexivity.
  - vm_compute. left. reflexivity.
Defined.

Lemma select_is_filter {A} (mask : A -> option bool) (df l : list A) :
  select mask df = Some l ->
  l = List.filter (fun r => match mask r with Some true => true | _ => false end) df.
Proof.
  revert l. induction df as [|x df IH]; intros l; cbn [select List.filter].
  - intros H. injection H as <-. reflexivity.
  - destruct (mask x) as [b|]; [|discriminate].
    destruct (select mask df) as [t|]; [|discriminate].
    intros H. injection H as <-. rewrite (IH t eq_refl).
    destruct b; reflexivity.
Qed.

Lemma filter_within {A} (p p' : A -> bool) (l : list A) :
  (forall x, p x = true -> p' x = true) ->
  List.filter p l = List.filter p (List.filter p' l).
Proof.
  intros H. induction l as [|x l IH]; cbn [List.filter]; [reflexivity |].
  destruct (p' x) eqn:E'; cbn [List.filter].
  - rewrite IH. reflexivity.
  - destruct (p x) eqn:E; [rewrite (H x E) in E'; discriminate | exact IH].
Qed.

(** X5.  When the live filter shows exactly one row for the query, the
    add button never asks to choose and never adds another row: it appends
    that row with quantity 1 if the resolution counts it as a match, which
    it does whenever the query contains the separator, and reports that
    the part was not found otherwise. *)
Theorem single_row_add (df : list StockRecord) (typed : str)
    (w : add_widgets) (rows : list RequestLine) (r : StockRecord) :
  spare_filtered df typed = Some [r] ->
  nonempty (search_value typed) = true ->
  add_button w = true ->
  let q := search_value typed in
  (hits_mask q r = Some true ->
     add_to_list df typed w rows
     = Some (Ok (rows ++ [new_line r], [Success (lit "Added: " ++ model r)])))
  /\ (hits_mask q r = Some false ->
        add_to_list df typed w rows
        = Some (Ok (rows, [Error (lit "Part not found: " ++ q)])))
  /\ (str_in SEP q = true -> hits_mask q r = Some true).
Proof.
  intros S N B q. unfold spare_filtered in S. fold q in S. fold q in N.
  rewrite N in S. pose proof (select_is_filter _ _ _ S) as F.
  assert (hits q df = List.filter (is_hit q) [r]) as H.
  { unfold hits. rewrite F. apply filter_within.
    intros x Hx. unfold is_hit in Hx.
    rewrite (hits_within_filter q x); [reflexivity |].
    destruct (hits_mask q x) as [[]|]; congruence. }
  assert (filter_mask q r = Some true) as Fr.
  { assert (In r [r]) as I by (left; reflexivity).
    rewrite F in I. apply List.filter_In in I as [_ I].
    destruct (filter_mask q r) as [[]|]; congruence. }
  unfold add_to_list. cbv zeta. fold q. rewrite B, N. cbn [andb].
  rewrite select_hits, H. cbn [List.filter]. unfold is_hit.
  split; [|split].
  - intros ->. reflexivity.
  - intros ->. rewrite q_display_id. reflexivity.
  - intros E. rewrite hits_mask_with_separator by exact E. exact Fr.
Qed.

Lemma single_row_add_witness :
  add_to_list Examples.table (lit "blade") (Examples.pressed AddToList 0) []
  = Some (Ok ([new_line Examples.blade], [Success (lit "Added: M100")]))
  /\ add_to_list Examples.table (lit "100") (Examples.pressed AddToList 0) []
     = Some (Ok ([], [Error (lit "Part not found: 100")])).
Proof.
  split.
  - apply (single_row_add Examples.table (lit "blade")
             (Examples.pressed AddToList 0) [] Examples.blade);
      vm_compute; reflexivity.
  - apply (single_row_add Examples.table (lit "100")
             (Examples.pressed AddToList 0) [] Examples.blade);
      vm_compute; reflexivity.
Defined.

(** *** [search_spares] *)

Lemma filter_sublist {A} (p : A -> bool) (l : list A) :
  sublist (List.filter p l) l.
Proof.
  induction l as [|x l IH]; cbn [List.filter]; [constructor |].
  destruct (p x); [apply sublist_skip | apply sublist_cons]; exact IH.
Qed.

(** X6.  The search box offers at most 20 suggestions, taken in the
    order of the table; each contains the stripped term, letter case
    aside; a suggestion that contains it is left out only when 20 are
    offered already; and the empty term gets none. *)
Theorem search_spares_offers (sugg : list str) (term : str) :
  let found := search_spares sugg term in
  let t := lower (strip term) in
  (length found <= 20)%nat
  /\ sublist found sugg
  /\ Forall (fun s => occurs t (lower s)) found
  /\ (forall s, term <> [] -> In s sugg -> occurs t (lower s) ->
        In s found \/ length found = 20%nat)
  /\ (term = [] -> found = []).
Proof.
  cbv zeta. unfold search_spares.
  destruct term as [|c term]; cbn [F64.is_nil].
  - split; [cbn; lia |]. split; [apply sublist_nil_l |].
    split; [constructor |].
    split; [intros s H; contradiction (H eq_refl) | reflexivity].
  - set (t := lower (strip (c :: term))).
    set (m := List.filter (fun s => str_in t (lower s)) sugg).
    split; [rewrite length_take; lia |]. split.
    { etransitivity; [apply sublist_take | apply filter_sublist]. }
    split.
    { apply List.Forall_forall. intros s I.
      apply list_elem_of_In, elem_of_take in I as (i & I & _).
      apply list_elem_of_lookup_2, list_elem_of_In in I.
      apply List.filter_In in I as [_ I]. apply str_in_spec. exact I. }
    split; [|discriminate].
    intros s _ I O.
    assert (In s m) as Im.
    { apply List.filter_In. split; [exact I | apply str_in_spec; exact O]. }
    destruct (le_lt_dec (length m) 20) as [L | L].
    + left. rewrite take_ge by exact L. exact Im.
    + right. rewrite length_take. lia.
Qed.

Lemma lstrip_blank (s : str) :
  Forall (fun c => is_space c = true) s -> lstrip s = [].
Proof. induction 1 as [|c s E _ IH]; cbn; [reflexivity | rewrite E; exact IH]. Qed.

Lemma filter_all {A} (p : A -> bool) (l : list A) :
  (forall x, p x = true) -> List.filter p l = l.
Proof.
  intros H. induction l as [|x l IH]; cbn; [reflexivity |].
  rewrite H, IH. reflexivity.
Qed.

(** X7.  A term made of white space only is not the empty term: it
    strips to the empty text, which every suggestion contains, so the
    first 20 suggestions are offered unfiltered. *)
Theorem blank_term_offers_first_rows (sugg : list str) (term : str) :
  term <> [] -> Forall (fun c => is_space c = true) term ->
  search_spares sugg term = take 20 sugg.
Proof.
  intros N B. unfold search_spares.
  destruct term as [|c term]; [contradiction |]. cbn [F64.is_nil].
  assert (strip (c :: term) = []) as ->.
  { unfold strip. rewrite (lstrip_blank _ B). reflexivity. }
  rewrite filter_all; [reflexivity |]. intros s. destruct s; reflexivity.
Qed.

Lemma blank_term_offers_first_rows_witness :
  search_spares (all_suggestions Examples.table) (lit "  ")
  = [lit "M100 - Blade"; lit "M101 - Guard"].
Proof.
  apply (blank_term_offers_first_rows (all_suggestions Examples.table)
           (lit "  ")).
  - discriminate.
  - repeat constructor.
Defined.

(** *** Picking a suggestion *)

Lemma lstrip_app (a b : str) : lstrip a <> [] -> lstrip (a ++ b) = lstrip a ++ b.
Proof.
  induction a as [|c a IH]; cbn [lstrip app]; [congruence |].
  destruct (is_space c); [exact IH | reflexivity].
Qed.

Lemma rstrip_app (a b : str) : rstrip b <> [] -> rstrip (a ++ b) = a ++ rstrip b.
Proof.
  unfold rstrip. intros H. rewrite rev_app_distr, lstrip_app.
  - rewrite rev_app_distr, rev_involutive. reflexivity.
  - intros E. apply H. rewrite E. reflexivity.
Qed.

Lemma lstrip_suffix (s : str) : exists ws, s = ws ++ lstrip s.
Proof.
  induction s as [|c s [ws IH]]; [exists []; reflexivity |]. cbn [lstrip].
  destruct (is_space c).
  - exists (c :: ws). cbn. rewrite <- IH. reflexivity.
  - exists []. reflexivity.
Qed.

Lemma rstrip_prefix (s : str) : exists ws, s = rstrip s ++ ws.
Proof.
  unfold rstrip. destruct (lstrip_suffix (rev s)) as [ws E].
  exists (rev ws). rewrite <- rev_app_distr, <- E, rev_involutive. reflexivity.
Qed.

Lemma startswith_app_long (p x y : str) :
  (length p <= length x)%nat -> startswith p (x ++ y) = startswith p x.
Proof.
  revert x. induction p as [|c p IH]; intros [|d x] L; cbn in *;
    try reflexivity; [lia |].
  rewrite IH by lia. reflexivity.
Qed.

Lemma str_in_tail (p a b : str) : str_in p (a ++ b) = false -> str_in p b = false.
Proof.
  induction a as [|c a IH]; cbn [app]; [tauto |].
  cbn [str_in]. intros H. apply orb_false_iff in H as [_ H]. apply IH, H.
Qed.

(** The separator is found where it was put, when it does not begin
    earlier. *)
Lemma partition_at_join (a b : str) :
  str_in SEP (a ++ lit " -") = false ->
  partition SEP (a ++ SEP ++ b) = Some (a, b).
Proof.
  induction a as [|c a IH]; intros H.
  - reflexivity.
  - cbn [app partition].
    assert (startswith SEP (c :: a ++ SEP ++ b) = false) as ->.
    { replace (c :: a ++ SEP ++ b)
        with (((c :: a) ++ lit " -") ++ (lit " " ++ b)).
      - rewrite startswith_app_long.
        + cbn [app str_in] in H. apply orb_false_iff in H as [H _]. exact H.
        + rewrite length_app. cbn. lia.
      - cbn. rewrite <- !app_assoc. reflexivity. }
    rewrite IH; [reflexivity |].
    cbn [app str_in] in H. apply orb_false_iff in H as [_ H]. exact H.
Qed.

Lemma select_keeps {A} (mask : A -> option bool) (df l : list A) (r : A) :
  select mask df = Some l -> In r df -> mask r = Some true -> In r l.
Proof.
  intros S I M. rewrite (select_is_filter _ _ _ S).
  apply List.filter_In. split; [exact I | rewrite M; reflexivity].
Qed.

(** X8.  Picking the suggestion of a row in the search box finds that
    row: when the model and the description each have a character that is
    no white space, and the separator does not occur in the model followed
    by a space and a hyphen (so that the first separator of the suggestion
    is the one that joins the two), the live filter shows the row and the
    add resolution counts it as a match. *)
Theorem suggestion_finds_its_row (df : list StockRecord) (r : StockRecord) :
  In r df ->
  lstrip (model r) <> [] ->
  rstrip (material_description r) <> [] ->
  str_in SEP (model r ++ lit " -") = false ->
  (exists shown, spare_filtered df (suggestion r) = Some shown /\ In r shown)
  /\ In r (hits (search_value (suggestion r)) df).
Proof.
  intros I Hm Hd Hs.
  set (m := lstrip (model r)) in *.
  set (d := rstrip (material_description r)) in *.
  assert (search_value (suggestion r) = m ++ SEP ++ d) as Q.
  { unfold search_value, suggestion, strip.
    rewrite lstrip_app by exact Hm. fold m.
    change (lit " - ") with SEP.
    rewrite app_assoc, rstrip_app by exact Hd. rewrite <- app_assoc.
    reflexivity. }
  assert (partition SEP (m ++ SEP ++ d) = Some (m, d)) as P.
  { apply partition_at_join. destruct (lstrip_suffix (model r)) as [ws E].
    fold m in E. rewrite E, <- app_assoc in Hs. eapply str_in_tail. exact Hs. }
  assert (str_in SEP (m ++ SEP ++ d) = true) as In_q.
  { destruct (str_in SEP (m ++ SEP ++ d)) eqn:E; [reflexivity |].
    apply partition_none in E. congruence. }
  assert (filter_mask (m ++ SEP ++ d) r = Some true) as F.
  { unfold filter_mask. rewrite In_q.
    destruct (both_parts_spec (m ++ SEP ++ d) m d r) as [v [Ev Hv]].
    { unfold split1. rewrite P. reflexivity. }
    rewrite Ev. f_equal. apply Hv. split.
    - destruct (lstrip_suffix (model r)) as [ws E]. fold m in E.
      exists ws, m, []. rewrite app_nil_r. auto.
    - destruct (rstrip_prefix (material_description r)) as [ws E]. fold d in E.
      exists [], d, ws. auto. }
  assert (nonempty (m ++ SEP ++ d) = true) as N.
  { destruct m; [contradiction | reflexivity]. }
  split.
  - unfold spare_filtered. rewrite Q, N.
    destruct (select_total (filter_mask (m ++ SEP ++ d)) df
                (filter_mask_total _)) as [l S].
    exists l. split; [exact S |]. eapply select_keeps; eassumption.
  - rewrite Q. unfold hits. apply List.filter_In. split; [exact I |].
    unfold is_hit. rewrite hits_mask_with_separator by exact In_q.
    rewrite F. reflexivity.
Qed.

Lemma suggestion_finds_its_row_witness :
  (exists shown,
     spare_filtered Examples.table (suggestion Examples.guard) = Some shown
     /\ In Examples.guard shown)
  /\ In Examples.guard
       (hits (search_value (suggestion Examples.guard)) Examples.table).
Proof.
  apply (suggestion_finds_its_row Examples.table Examples.guard).
  - right. left. reflexivity.
  - discriminate.
  - discriminate.
  - reflexivity.
Defined.

(** One row outside that condition: its model holds the separator, its
    suggestion is cut inside the model, and the row is not found.  (Other
    such rows are found all the same.) *)
Example suggestion_of_a_model_with_separator :
  let r := {| model := lit "DHP - 18"; material_description := lit "Drill";
              shrm := []; home := []; stock := 1; used_spares := 0;
              price := F64.zero |} in
  spare_filtered [r] (suggestion r) = Some []
  /\ hits (search_value (suggestion r)) [r] = [].
Proof. split; vm_compute; reflexivity. Qed.

End SuggestFacts.

(** ** Row normaliser: the rows of a resolved sheet *)

Module FrameFacts.
Import Text Cell Resolver Normalizer Spec Sheet.
Import ResolverFacts NormalizerFacts ColumnMapFacts.

Lemma colmap_value_in_cols (cols : list str) colmap (key h : str) :
  build_column_map cols = Ok colmap -> colmap !! key = Some h -> In h cols.
Proof.
  intros B L. rewrite (colmap_lookup cols colmap key B) in L.
  pose proof (first_match_resolvable key cols) as R. rewrite L in R.
  apply R.
Qed.

Lemma col_series_ok (cols : list str) raw colmap (key : str) (default : cell) :
  build_column_map cols = Ok colmap -> well_formed cols raw ->
  exists c, col_series raw colmap key default = Ok c
            /\ length c = nrows raw.
Proof.
  intros B W. unfold col_series, column.
  destruct (colmap !! key) as [name|] eqn:L.
  - destruct (W name (colmap_value_in_cols _ _ _ _ B L)) as [c [-> Hc]]. eauto.
  - eexists. split; [reflexivity | apply repeat_length].
Qed.

Lemma apply_total {A} (f : cell -> result A) (s : list cell) :
  (forall c, exists a, f c = Ok a) ->
  exists l, apply f s = Ok l /\ length l = length s.
Proof.
  intros T. unfold apply. induction s as [|c s [l [E L]]]; cbn [map sequence].
  - exists []. auto.
  - destruct (T c) as [a ->]. rewrite E. cbn [bind].
    exists (a :: l). cbn. auto.
Qed.

Lemma to_int_total (c : cell) : exists n, to_int c = Ok n.
Proof. unfold to_int. destruct (to_int_body c); cbn; eauto. Qed.

Lemma to_float_total (c : cell) : exists x, to_float c = Ok x.
Proof. unfold to_float. destruct (to_float_body c); cbn; eauto. Qed.

Lemma frame_length (n : nat) (m d s h : list str) (st us : list Z)
    (p : list F64.float) :
  length m = n -> length d = n -> length s = n -> length h = n ->
  length st = n -> length us = n -> length p = n ->
  length (frame m d s h st us p) = n.
Proof.
  revert m d s h st us p.
  induction n as [|n IH]; intros [|m0 m] [|d0 d] [|s0 s] [|h0 h] [|st0 st]
    [|us0 us] [|p0 p]; cbn [length frame]; try discriminate; try reflexivity.
  intros. f_equal. apply IH; congruence.
Qed.

Lemma int_column_ok (cols : list str) raw colmap (key : str) :
  build_column_map cols = Ok colmap -> well_formed cols raw ->
  exists l,
    (if has_key colmap key
     then do c <- col_series raw colmap key (CInt 0); apply to_int c
     else Ok (repeat 0 (nrows raw))) = Ok l
    /\ length l = nrows raw.
Proof.
  intros B W. destruct (has_key colmap key).
  - destruct (col_series_ok cols raw colmap key (CInt 0) B W) as [c [-> Lc]].
    cbn [bind]. destruct (apply_total to_int c to_int_total) as [l [-> Ll]].
    exists l. split; [reflexivity | congruence].
  - eexists. split; [reflexivity | apply repeat_length].
Qed.

(** X9.  A column map built from the headers of a sheet always fits that
    sheet: the normaliser raises no error on it and returns one record for
    each row of the sheet. *)
Theorem normaliser_accepts_resolved_sheet (cols : list str) raw colmap :
  build_column_map cols = Ok colmap ->
  well_formed cols raw ->
  exists recs, build_app_df raw colmap = Ok recs
               /\ length recs = nrows raw.
Proof.
  intros B W. unfold build_app_df. cbv zeta.
  destruct (col_series_ok cols raw colmap k_model (CStr []) B W)
    as [m [-> Lm]].
  destruct (col_series_ok cols raw colmap k_material_description (CStr []) B W)
    as [d [-> Ld]].
  destruct (col_series_ok cols raw colmap k_shrm (CStr []) B W) as [s [-> Ls]].
  destruct (col_series_ok cols raw colmap k_home (CStr []) B W) as [h [-> Lh]].
  cbn [bind].
  destruct (int_column_ok cols raw colmap k_stock B W) as [st [-> Lst]].
  destruct (int_column_ok cols raw colmap k_used_spares B W) as [us [-> Lus]].
  destruct (col_series_ok cols raw colmap k_price (CInt 0) B W) as [pc [-> Lpc]].
  cbn [bind].
  destruct (apply_total to_float pc to_float_total) as [p [-> Lp]].
  cbn [bind]. eexists. split; [reflexivity |].
  apply frame_length; unfold replace, astype_str, fillna;
    rewrite ?length_map; congruence.
Qed.

Lemma normaliser_accepts_resolved_sheet_witness :
  exists colmap recs,
    build_column_map [lit "Model"; lit "Description"; lit "Stock"] = Ok colmap
    /\ build_app_df Examples.negative_stock colmap = Ok recs
    /\ length recs = 2%nat.
Proof.
  set (cols := [lit "Model"; lit "Description"; lit "Stock"]).
  assert (build_column_map cols
          = Ok (fold_left (resolve (norm_to_actual cols)) CANDIDATES ∅)) as B
    by (apply build_column_map_ok; vm_compute; reflexivity).
  destruct (normaliser_accepts_resolved_sheet cols Examples.negative_stock
              _ B) as [recs [E L]].
  - intros h I. cbn in I.
    repeat (destruct I as [<- | I];
            [eexists; split; [vm_compute; reflexivity | reflexivity] |]).
    destruct I.
  - eexists. exists recs. split; [exact B |]. split; [exact E | exact L].
Defined.

(** Without a resolved sheet the normaliser can fail: a column map that
    names a header the frame does not have. *)
Example stale_column_map_raises :
  build_app_df Examples.two_columns Examples.stock_map
  = Raise (KeyError (lit "Stock")).
Proof. vm_compute. reflexivity. Qed.

Lemma has_key_none (m : gmap (list ascii) (list ascii)) (k : str) :
  m !! k = None -> has_key m k = false.
Proof.
  intros H. unfold has_key. apply bool_decide_eq_false_2.
  rewrite H. intros [x E]. discriminate.
Qed.

(** X10.  A numeric field with no column in the sheet is zero in every
    record: stock 0, used spares 0, price 0.0. *)
Theorem absent_numeric_columns raw colmap recs :
  build_app_df raw colmap = Ok recs ->
  (colmap !! k_stock = None -> Forall (fun r => stock r = 0) recs)
  /\ (colmap !! k_used_spares = None ->
        Forall (fun r => used_spares r = 0) recs)
  /\ (colmap !! k_price = None -> Forall (fun r => price r = F64.zero) recs).
Proof.
  intros H. unfold build_app_df in H. cbv zeta in H.
  apply bind_ok in H as [m [_ H]]. apply bind_ok in H as [d [_ H]].
  apply bind_ok in H as [s [_ H]]. apply bind_ok in H as [h [_ H]].
  apply bind_ok in H as [st [Est H]]. apply bind_ok in H as [us [Eus H]].
  apply bind_ok in H as [p [Ep H]]. injection H as <-.
  split; [|split]; intros N; apply List.Forall_forall; intros r I;
    apply frame_In in I as (_ & _ & _ & _ & Ist & Ius & Ip).
  - rewrite (has_key_none _ _ N) in Est. injection Est as <-.
    eapply In_repeat. exact Ist.
  - rewrite (has_key_none _ _ N) in Eus. injection Eus as <-.
    eapply In_repeat. exact Ius.
  - apply bind_ok in Ep as [c [Ec Ep]]. unfold col_series in Ec.
    rewrite N in Ec. injection Ec as <-.
    destruct (sequence_In _ _ _ Ep _ Ip) as [c [Ic E]].
    apply In_repeat in Ic. subst c.
    assert (to_float (CInt 0) = Ok F64.zero) as Z by (vm_compute; reflexivity).
    congruence.
Qed.

Lemma absent_numeric_columns_witness :
  Forall (fun r => used_spares r = 0)
    [ {| model := lit "M101"; material_description := lit "Guard";
         shrm := []; home := [];
         stock := 4; used_spares := 0; price := F64.zero |} ]
  /\ Forall (fun r => price r = F64.zero)
       [ {| model := lit "M101"; material_description := lit "Guard";
            shrm := []; home := [];
            stock := 4; used_spares := 0; price := F64.zero |} ].
Proof.
  assert (build_app_df Examples.plain_stock Examples.stock_map
          = Ok [ {| model := lit "M101"; material_description := lit "Guard";
                    shrm := []; home := [];
                    stock := 4; used_spares := 0; price := F64.zero |} ])
    as E by (vm_compute; reflexivity).
  pose proof (absent_numeric_columns _ _ _ E) as (_ & U & P).
  split; [apply U | apply P]; vm_compute; reflexivity.
Defined.

(** The record at a position takes each field from that position of the
    column of the field. *)
Lemma frame_lookup (m d s h : list str) (st us : list Z) (p : list F64.float)
    (i : nat) (r : StockRecord) :
  frame m d s h st us p !! i = Some r ->
  m !! i = Some (model r) /\ d !! i = Some (material_description r)
  /\ s !! i = Some (shrm r) /\ h !! i = Some (home r)
  /\ st !! i = Some (stock r) /\ us !! i = Some (used_spares r)
  /\ p !! i = Some (price r).
Proof.
  revert i d s h st us p.
  induction m as [|m0 m IH]; intros i [|d0 d] [|s0 s] [|h0 h] [|st0 st]
    [|us0 us] [|p0 p]; cbn [frame]; try (intros H; discriminate).
  destruct i as [|i]; cbn.
  - intros H. injection H as <-. cbn. repeat split; reflexivity.
  - apply IH.
Qed.

Lemma col_series_at raw colmap (key : str) (default : cell) col (i : nat)
    (c : cell) :
  col_series raw colmap key default = Ok col ->
  cell_at raw colmap key i = Some c -> col !! i = Some c.
Proof.
  unfold col_series, column, cell_at.
  destruct (colmap !! key) as [name|]; cbn; [|discriminate].
  destruct (columns raw !! name) as [x|]; cbn; [|discriminate].
  intros H. injection H as <-. tauto.
Qed.

Lemma lookup_map_inv {A B} (f : A -> B) (l : list A) (i : nat) (x : A) (y : B) :
  l !! i = Some x -> map f l !! i = Some y -> y = f x.
Proof.
  intros L M. change (map f l) with (f <$> l) in M.
  rewrite list_lookup_fmap, L in M. cbn in M. congruence.
Qed.

(** X11.  The text fields of the record at row [i], from the cells of
    that row.  Model and description are the text [str] makes of the cell,
    so a null cell reads [nan] or [None]; showroom and home are [N-A] for a
    null cell and for a cell whose text is [nan], and the text of the cell
    otherwise. *)
Theorem text_fields_by_row raw colmap recs (i : nat) (r : StockRecord) :
  build_app_df raw colmap = Ok recs ->
  recs !! i = Some r ->
  (forall c, cell_at raw colmap k_model i = Some c -> model r = py_str c)
  /\ (forall c, cell_at raw colmap k_material_description i = Some c ->
        material_description r = py_str c)
  /\ (forall c, cell_at raw colmap k_shrm i = Some c -> shrm r = place_text c)
  /\ (forall c, cell_at raw colmap k_home i = Some c -> home r = place_text c).
Proof.
  intros H R. unfold build_app_df in H. cbv zeta in H.
  apply bind_ok in H as [m [Em H]]. apply bind_ok in H as [d [Ed H]].
  apply bind_ok in H as [s [Es H]]. apply bind_ok in H as [h [Eh H]].
  apply bind_ok in H as [st [_ H]]. apply bind_ok in H as [us [_ H]].
  apply bind_ok in H as [p [_ H]]. injection H as <-.
  apply frame_lookup in R as (Rm & Rd & Rs & Rh & _).
  assert (forall col c, col !! i = Some c -> forall y,
            replace (lit "nan") N_A (astype_str (fillna (CStr N_A) col)) !! i
            = Some y -> y = place_text c) as P.
  { intros col c L y Y. unfold replace, astype_str, fillna in Y.
    rewrite !List.map_map in Y.
    rewrite (lookup_map_inv _ _ _ _ _ L Y). unfold place_text. cbv beta.
    destruct (pd_isna c); [vm_compute; reflexivity | reflexivity]. }
  repeat split; intros c C.
  - exact (lookup_map_inv py_str _ _ _ _ (col_series_at _ _ _ _ _ _ _ Em C) Rm).
  - exact (lookup_map_inv py_str _ _ _ _ (col_series_at _ _ _ _ _ _ _ Ed C) Rd).
  - exact (P _ _ (col_series_at _ _ _ _ _ _ _ Es C) _ Rs).
  - exact (P _ _ (col_series_at _ _ _ _ _ _ _ Eh C) _ Rh).
Qed.

Lemma text_fields_by_row_witness :
  lit "M100" = py_str (CStr (lit "M100"))
  /\ lit "N-A" = place_text (CFloat S754_nan).
Proof.
  pose proof (text_fields_by_row SheetSamples.showroom_sheet
                SheetSamples.showroom_map SheetSamples.showroom_records 0
                {| model := lit "M100"; material_description := lit "Blade";
                   shrm := lit "N-A"; home := [];
                   stock := 0; used_spares := 0; price := F64.zero |})
    as H.
  destruct H as (Hm & _ & Hs & _); [vm_compute; reflexivity | reflexivity |].
  split; [apply Hm | apply Hs]; reflexivity.
Defined.

(** The sample sheet, normalised: the missing and the [nan] showroom cell
    read [N-A], the missing model cell reads [nan]. *)
Example showroom_sheet_normalised :
  build_app_df SheetSamples.showroom_sheet SheetSamples.showroom_map
  = Ok SheetSamples.showroom_records.
Proof. vm_compute. reflexivity. Qed.

End FrameFacts.

(** ** Tab 2: a second run, the rerun of the table, the exported sheet *)

Module RerunFacts.
Import Normalizer Search Cart Spec Rerun Priced.
Import TextFacts F64Facts CartFacts.

(** The line stored by either path for a line of the list, when the
    widget delivers [e] for it. *)
Lemma shown_qty_stored (l : RequestLine) (q : Z) :
  qty l = Some q -> 0 <= q -> shown_qty l = q.
Proof. intros E H. unfold shown_qty. rewrite E. cbn. lia. Qed.

Lemma card_stored_in_range (entered : nat -> option Z)
    (rows : list RequestLine) :
  stored_in_range rows -> entries_honour_min entered ->
  stored_in_range (imap (card_line entered) (map shown_row rows)).
Proof.
  intros Hs He. apply Forall_lookup. intros i l' L.
  rewrite card_line_at in L.
  destruct (rows !! i) as [l|] eqn:R; [|discriminate]. cbn in L.
  injection L as <-. cbn. apply in_int64_range.
  pose proof (shown_qty_range l) as B.
  unfold stored_in_range in Hs. rewrite Forall_lookup in Hs.
  specialize (B (Hs i l R)).
  destruct (entered i) as [q|] eqn:E; cbn; [|lia].
  pose proof (He i q E). lia.
Qed.

Lemma card_lines_fixed (entered e : nat -> option Z)
    (rows : list RequestLine) :
  entries_honour_min entered ->
  (forall i q, e i = Some q -> entered i = Some q) ->
  imap (card_line e)
    (map shown_row (imap (card_line entered) (map shown_row rows)))
  = imap (card_line entered) (map shown_row rows).
Proof.
  intros He Hsub. apply list_eq. intros i. rewrite card_line_at.
  rewrite (card_line_at entered rows i).
  destruct (rows !! i) as [l|]; [|reflexivity]. cbn. f_equal.
  unfold card_line. cbn [shown_row rr_item rr_qty item]. f_equal. f_equal.
  set (q := default (shown_qty l) (entered i)).
  assert (0 <= q) as Hq.
  { subst q. pose proof (shown_qty_nonneg l).
    destruct (entered i) as [x|] eqn:E; cbn; [|assumption].
    pose proof (He i x E). lia. }
  rewrite (shown_qty_stored {| item := item l; qty := Some q |} q eq_refl Hq).
  destruct (e i) as [x|] eqn:E; cbn; [|reflexivity].
  subst q. rewrite (Hsub i x E). reflexivity.
Qed.

Lemma rows_in_range (rows : list RequestLine) :
  stored_in_range rows ->
  forall row, In row (map shown_row rows) -> 0 <= rr_qty row < 2 ^ 63.
Proof.
  intros Hs row I. apply List.in_map_iff in I as [l [<- I]].
  unfold stored_in_range in Hs. rewrite List.Forall_forall in Hs.
  cbn [shown_row rr_qty]. apply shown_qty_range, Hs, I.
Qed.

Lemma card_path_unfold (entered : nat -> option Z) (rows : list RequestLine) :
  stored_in_range rows -> entries_honour_min entered ->
  card_path entered rows
  = do t <- card_totals (imap (card_line entered) (map shown_row rows));
    Ok (imap (card_line entered) (map shown_row rows), t).
Proof.
  intros Hs He. unfold card_path. rewrite (req_df_shown rows Hs). cbn [bind].
  rewrite (card_rows_lines entered _ He (rows_in_range rows Hs)).
  reflexivity.
Qed.

(** X12.  The card path reaches a fixed point in one run.  After a run
    in which the quantity widgets honoured their minimum, running it again
    on the stored list, with the widgets holding the same entries or none,
    stores the same list and shows the same totals. *)
Theorem card_path_settles (rows : list RequestLine)
    (entered : nat -> option Z) stored t :
  stored_in_range rows ->
  entries_honour_min entered ->
  card_path entered rows = Ok (stored, t) ->
  card_path entered stored = Ok (stored, t)
  /\ card_path (fun _ => None) stored = Ok (stored, t).
Proof.
  intros Hs He E. rewrite (card_path_unfold entered rows Hs He) in E.
  destruct (card_totals _) as [t0|] eqn:T; cbn [bind] in E; [|discriminate].
  injection E as <- <-.
  pose proof (card_stored_in_range entered rows Hs He) as Hs'.
  split.
  - rewrite (card_path_unfold entered _ Hs' He).
    rewrite (card_lines_fixed entered entered rows He) by auto.
    rewrite T. reflexivity.
  - assert (entries_honour_min (fun _ => None)) as Hn
      by (intros i q H; discriminate).
    rewrite (card_path_unfold _ _ Hs' Hn).
    rewrite (card_lines_fixed entered (fun _ => None) rows He)
      by (intros i q H; discriminate).
    rewrite T. reflexivity.
Qed.

Lemma card_path_settles_witness :
  exists stored t,
    card_path three_first blade_list = Ok (stored, t)
    /\ card_path three_first stored = Ok (stored, t)
    /\ card_path (fun _ => None) stored = Ok (stored, t).
Proof.
  assert (exists stored t, card_path three_first blade_list = Ok (stored, t))
    as (stored & t & E) by (do 2 eexists; vm_compute; reflexivity).
  exists stored, t. split; [exact E |].
  apply (card_path_settles blade_list three_first stored t).
  - repeat constructor.
  - intros [|i] q H; [injection H as <-; lia | discriminate].
  - exact E.
Defined.

(** *** The comparison [new_rows != req_rows] *)

Lemma SFeqb_refl (x : F64.float) : F64.is_nan x = false -> SFeqb x x = true.
Proof.
  destruct x as [s | s | | s m e]; cbn; try discriminate; intros _;
    unfold SFeqb; cbn.
  - reflexivity.
  - destruct s; reflexivity.
  - rewrite Z.compare_refl, Pos.compare_refl. destruct s; reflexivity.
Qed.

Lemma SFeqb_not_nan (x y : F64.float) : SFeqb x y = true -> F64.is_nan y = false.
Proof.
  destruct y; try reflexivity. destruct x; unfold SFeqb; cbn; discriminate.
Qed.

Lemma str_eqb_refl (s : str) : Text.str_eqb s s = true.
Proof. apply str_eqb_eq. reflexivity. Qed.

Lemma rows_eqb_refl (rows : list RequestLine) :
  no_nan_price rows -> rows_eqb rows rows = true.
Proof.
  induction 1 as [|l rows N _ IH]; cbn [rows_eqb]; [reflexivity |].
  rewrite IH, andb_true_r. unfold line_eqb, record_eqb, qty_eqb.
  rewrite !str_eqb_refl, !Z.eqb_refl, (SFeqb_refl _ N). cbn.
  destruct (qty l); [apply Z.eqb_refl | reflexivity].
Qed.

Lemma rows_eqb_no_nan (a b : list RequestLine) :
  rows_eqb a b = true -> no_nan_price b.
Proof.
  revert b. induction a as [|x a IH]; intros [|y b]; cbn [rows_eqb];
    try discriminate; [constructor |].
  intros H. apply andb_true_iff in H as [H1 H2]. constructor; [|apply IH, H2].
  unfold line_eqb in H1. apply andb_true_iff in H1 as [H1 _].
  unfold record_eqb in H1. apply andb_true_iff in H1 as [_ H1].
  eapply SFeqb_not_nan. exact H1.
Qed.

Lemma table_stored_in_range (edits : nat -> edit) (rows : list RequestLine) :
  stored_in_range rows -> edits_honour_min edits ->
  stored_in_range (to_records (imap (edited_row edits) (map shown_row rows))).
Proof.
  intros Hs He. apply Forall_lookup. intros i l' L.
  rewrite table_line_at in L.
  destruct (rows !! i) as [l|] eqn:R; [|discriminate]. cbn in L.
  injection L as <-. cbn. apply in_int64_range.
  pose proof (shown_qty_range l) as B.
  unfold stored_in_range in Hs. rewrite Forall_lookup in Hs.
  specialize (B (Hs i l R)).
  destruct (edits i) as [| |q] eqn:E; cbn; try lia.
  pose proof (He i q E). lia.
Qed.

Lemma edited_rows_fixed (edits e : nat -> edit) (rows : list RequestLine) :
  edits_honour_min edits ->
  (forall i, e i = edits i \/ e i = Keep) ->
  imap (edited_row e)
    (map shown_row
       (to_records (imap (edited_row edits) (map shown_row rows))))
  = imap (edited_row edits) (map shown_row rows).
Proof.
  intros He Hsub. apply list_eq. intros i.
  rewrite !list_lookup_imap, !lookup_map, table_line_at.
  destruct (rows !! i) as [l|]; [|reflexivity]. cbn. f_equal.
  set (q := default 0 (edited_qty (edits i) (shown_row l))).
  assert (0 <= q) as Hq.
  { subst q. pose proof (shown_qty_nonneg l).
    destruct (edits i) as [| |x] eqn:E; cbn; try lia.
    pose proof (He i x E). lia. }
  assert (default 0 (edited_qty (e i)
            (shown_row {| item := item l; qty := Some q |})) = q) as Q.
  { destruct (Hsub i) as [-> | ->].
    - subst q. destruct (edits i) as [| |x] eqn:E; cbn; try reflexivity.
      apply (shown_qty_stored {| item := item l; qty := Some (shown_qty l) |}
               _ eq_refl).
      apply shown_qty_nonneg.
    - cbn. apply (shown_qty_stored {| item := item l; qty := Some q |}
                    _ eq_refl Hq). }
  unfold edited_row at 1. cbv zeta. rewrite Q. reflexivity.
Qed.

Lemma table_reruns_unfold (edits : nat -> edit) (rows : list RequestLine) :
  stored_in_range rows -> edits_honour_min edits ->
  table_reruns edits rows
  = Ok (negb (rows_eqb
                (to_records (imap (edited_row edits) (map shown_row rows)))
                rows)).
Proof.
  intros Hs He. unfold table_reruns, new_rows.
  rewrite (req_df_shown rows Hs). cbn [bind].
  rewrite (edited_df_rows edits _ He (rows_in_range rows Hs)). reflexivity.
Qed.

(** X13.  The table path settles after one rerun.  When no price in the
    list is NaN and the editor honoured its minimum, the list the run
    stored is a fixed point: on the next run, with the editor holding the
    same quantity edits or none, [new_rows] equals the stored list, no
    rerun is asked for, and the totals are those of the run before. *)
Theorem table_path_settles (rows : list RequestLine)
    (edits : nat -> edit) stored t :
  stored_in_range rows ->
  edits_honour_min edits ->
  no_nan_price rows ->
  table_path edits rows = Ok (stored, t) ->
  (table_reruns edits stored = Ok false
   /\ table_path edits stored = Ok (stored, t))
  /\ (table_reruns (fun _ => Keep) stored = Ok false
      /\ table_path (fun _ => Keep) stored = Ok (stored, t)).
Proof.
  intros Hs He Hn E. rewrite (table_path_rows edits rows Hs He) in E.
  injection E as <- <-.
  pose proof (table_stored_in_range edits rows Hs He) as Hs'.
  assert (no_nan_price
            (to_records (imap (edited_row edits) (map shown_row rows))))
    as Hn'.
  { apply Forall_lookup. intros i l' L. rewrite table_line_at in L.
    destruct (rows !! i) as [l|] eqn:R; [|discriminate]. cbn in L.
    injection L as <-. cbn [item].
    unfold no_nan_price in Hn. rewrite Forall_lookup in Hn.
    exact (Hn i l R). }
  assert (edits_honour_min (fun _ => Keep)) as Hk
    by (intros i q H; discriminate).
  split; split.
  - rewrite (table_reruns_unfold _ _ Hs' He).
    rewrite (edited_rows_fixed edits edits rows He) by auto.
    rewrite (rows_eqb_refl _ Hn'). reflexivity.
  - rewrite (table_path_rows _ _ Hs' He).
    rewrite (edited_rows_fixed edits edits rows He) by auto. reflexivity.
  - rewrite (table_reruns_unfold _ _ Hs' Hk).
    rewrite (edited_rows_fixed edits (fun _ => Keep) rows He) by auto.
    rewrite (rows_eqb_refl _ Hn'). reflexivity.
  - rewrite (table_path_rows _ _ Hs' Hk).
    rewrite (edited_rows_fixed edits (fun _ => Keep) rows He) by auto.
    reflexivity.
Qed.

Lemma table_path_settles_witness :
  exists stored t,
    table_path (fun i => table_edit (three_first i)) blade_list
    = Ok (stored, t)
    /\ table_reruns (fun i => table_edit (three_first i)) blade_list = Ok true
    /\ table_reruns (fun i => table_edit (three_first i)) stored = Ok false
    /\ table_reruns (fun _ => Keep) stored = Ok false.
Proof.
  assert (exists stored t,
            table_path (fun i => table_edit (three_first i)) blade_list
            = Ok (stored, t))
    as (stored & t & E) by (do 2 eexists; vm_compute; reflexivity).
  exists stored, t. split; [exact E |]. split; [vm_compute; reflexivity |].
  destruct (table_path_settles blade_list
              (fun i => table_edit (three_first i)) stored t)
    as ((R1 & _) & (R2 & _)).
  - repeat constructor.
  - intros [|i] q H; [injection H as <-; lia | discriminate].
  - repeat constructor.
  - exact E.
  - split; assumption.
Defined.

(** X14.  A line whose price is NaN keeps the table path from settling.
    The floats of [new_rows] are made anew from the data frame on each
    run, so they are compared with those of the stored list by value, and
    a NaN differs from itself: [new_rows != req_rows] holds on every run,
    whatever the quantity edits, and again on the list that run stores.
    Each run stores the list and asks for another rerun. *)
Theorem nan_price_always_reruns (rows : list RequestLine)
    (edits : nat -> edit) :
  stored_in_range rows ->
  edits_honour_min edits ->
  some_nan_price rows ->
  table_reruns edits rows = Ok true
  /\ forall stored t, table_path edits rows = Ok (stored, t) ->
       table_reruns edits stored = Ok true.
Proof.
  intros Hs He Hn.
  assert (forall rows', stored_in_range rows' -> some_nan_price rows' ->
            table_reruns edits rows' = Ok true) as K.
  { intros rows' Hs' Hn'. rewrite (table_reruns_unfold _ _ Hs' He).
    destruct (rows_eqb _ rows') eqn:E; [|reflexivity].
    apply rows_eqb_no_nan in E. exfalso.
    unfold some_nan_price in Hn'. apply List.Exists_exists in Hn' as [l [I N]].
    unfold no_nan_price in E. rewrite List.Forall_forall in E.
    rewrite (E l I) in N. discriminate. }
  split; [apply K; assumption |].
  intros stored t E. rewrite (table_path_rows edits rows Hs He) in E.
  injection E as <- _. apply K.
  - apply table_stored_in_range; assumption.
  - unfold some_nan_price in *. apply List.Exists_exists in Hn as [l [I N]].
    apply list_elem_of_In, list_elem_of_lookup in I as [i L].
    apply List.Exists_exists. eexists. split.
    + eapply lookup_In. rewrite table_line_at, L. reflexivity.
    + exact N.
Qed.

Lemma nan_price_always_reruns_witness :
  table_reruns (fun _ => Keep) washer_list = Ok true
  /\ forall stored t, table_path (fun _ => Keep) washer_list = Ok (stored, t) ->
       table_reruns (fun _ => Keep) stored = Ok true.
Proof.
  apply (nan_price_always_reruns washer_list (fun _ => Keep)).
  - repeat constructor.
  - intros i q H. discriminate H.
  - right. left. reflexivity.
Defined.

(** *** The exported sheet *)

Lemma out_rows_imap {A} (f : nat -> A -> RequestLine) (g : nat -> A -> ReqRow)
    (l : list A) :
  (forall i x, l !! i = Some x -> out_row (f i x) = Some (g i x)) ->
  out_rows (imap f l) = Some (imap g l).
Proof.
  revert f g. induction l as [|x l IH]; intros f g H; cbn [imap out_rows];
    [reflexivity |].
  rewrite (H 0%nat x eq_refl).
  rewrite (IH (f ∘ S) (g ∘ S)) by (intros i y L; apply (H (S i)); exact L).
  reflexivity.
Qed.

(** X15.  The sheet behind the download button is the same in both
    modes: for the same request list and the same quantities, put through
    the cards or through the table, the exported rows agree in every
    column, [line_total] included, and carry the quantities stored. *)
Theorem export_same_in_both_modes (rows : list RequestLine)
    (entered : nat -> option Z) :
  stored_in_range rows ->
  entries_honour_min entered ->
  exists sheet,
    out_df_card entered rows = Ok (Some sheet)
    /\ out_df_table (fun i => table_edit (entered i)) rows = Ok sheet
    /\ map rr_item sheet = map item rows
    /\ forall stored t, card_path entered rows = Ok (stored, t) ->
         map (fun r => Some (rr_qty r)) sheet = map qty stored.
Proof.
  intros Hs He.
  set (edits := fun i => table_edit (entered i)).
  assert (edits_honour_min edits) as Ht.
  { intros i q H. unfold edits, table_edit in H.
    destruct (entered i) as [x|] eqn:E; [|discriminate].
    injection H as <-. apply (He i x E). }
  exists (imap (edited_row edits) (map shown_row rows)).
  split; [|split; [|split]].
  - unfold out_df_card. rewrite (req_df_shown rows Hs). cbn [bind].
    rewrite (card_rows_lines entered _ He (rows_in_range rows Hs)).
    cbn [bind]. f_equal. apply out_rows_imap. intros i row L.
    pose proof (rows_in_range rows Hs row (lookup_In _ _ _ L)) as R.
    unfold out_row, card_line, edited_row. cbn [qty item]. cbv zeta.
    assert (default (rr_qty row) (entered i)
            = default 0 (edited_qty (edits i) row)) as Q.
    { unfold edits, table_edit. destruct (entered i); reflexivity. }
    rewrite <- Q.
    assert (in_int64 (default (rr_qty row) (entered i)) = true) as ->.
    { apply in_int64_range. destruct (entered i) as [x|] eqn:E; cbn; [|lia].
      pose proof (He i x E). lia. }
    reflexivity.
  - unfold out_df_table. rewrite (req_df_shown rows Hs). cbn [bind].
    apply (edited_df_rows edits _ Ht (rows_in_range rows Hs)).
  - rewrite (imap_ext_map _ rr_item rr_item) by reflexivity.
    rewrite List.map_map. reflexivity.
  - intros stored t E.
    destruct (card_path_rows entered rows Hs He) as [amount E'].
    cbv zeta in E'. rewrite E' in E. injection E as <- _.
    apply list_eq. intros i. rewrite !lookup_map, !list_lookup_imap.
    rewrite !lookup_map. destruct (rows !! i) as [l|]; [|reflexivity].
    cbn. unfold edits, table_edit. destruct (entered i); reflexivity.
Qed.

Lemma export_same_in_both_modes_witness :
  exists sheet,
    out_df_card three_first blade_list = Ok (Some sheet)
    /\ out_df_table (fun i => table_edit (three_first i)) blade_list = Ok sheet
    /\ map rr_item sheet = map item blade_list
    /\ forall stored t, card_path three_first blade_list = Ok (stored, t) ->
         map (fun r => Some (rr_qty r)) sheet = map qty stored.
Proof.
  apply (export_same_in_both_modes blade_list three_first).
  - repeat constructor.
  - intros [|i] q H; [injection H as <-; lia | discriminate].
Defined.

End RerunFacts.
